(** * Solar position: time/angle converters, series formulas, closed-form
      position and the iterative ephemeris kernel of [energy_bal_Init.py]

    The source is NumPy/pandas code.  Two kinds of data occur in it:

    - [int64] nanosecond counts ([DatetimeIndex.view(np.int64)]), modelled
      as [Z] with the two's-complement wrap-around of NumPy array
      arithmetic written out ([wrap64]);
    - [float64] values, modelled as [float := option R]: [Some r] is the
      finite number [r] and [None] is NaN.  Arithmetic on finite values is
      exact (rounding is not modelled); an invalid operation (division by
      zero, [arccos] outside [-1, 1], [tan] at a pole) gives [None], and
      [None] propagates through every operation and makes every comparison
      false, as IEEE 754 NaN does.  The infinities are not distinguished
      from NaN: in the functions embedded here a non-finite intermediate
      value is either replaced by a guard or reaches the output unchanged.

    Array functions of the source act elementwise; they are embedded as
    their element kernel, and as list functions where the source couples
    the elements (the array-wide maximum of the Kepler loop).  A call that
    raises returns [None] (or [Raised]); the [while] loop of the ephemeris
    runs on fuel and counts its passes.

    A timezone-aware [DatetimeIndex] entry is its UTC nanosecond value and
    the table of UTC offsets of its zone, so that zones with daylight time
    are covered; [normalize] and [tz_localize] follow pandas.

    Where rounding decides what a function returns, the function is also
    embedded on binary64 itself ([Module binary64]): the arithmetic is that
    of Rocq's primitive floats, which is the processor's, and the functions
    of the C library are a parameter. *)

From Stdlib Require Import ZArith List Bool Reals Lra Lia Psatz.
From Stdlib Require Floats.
Import ListNotations.

Open Scope R_scope.

(** ** float64, idealised *)

Definition float : Type := option R.

Definition nan : float := None.

Definition of_R (r : R) : float := Some r.
Coercion of_R : R >-> float.

Definition lift1 (f : R -> R) (x : float) : float :=
  match x with
  | Some a => Some (f a)
  | None => None
  end.

Definition lift2 (f : R -> R -> R) (x y : float) : float :=
  match x, y with
  | Some a, Some b => Some (f a b)
  | _, _ => None
  end.

Definition fadd : float -> float -> float := lift2 Rplus.
Definition fsub : float -> float -> float := lift2 Rminus.
Definition fmul : float -> float -> float := lift2 Rmult.
Definition fneg : float -> float := lift1 Ropp.
Definition fabs : float -> float := lift1 Rabs.

(** [x / 0] is non-finite. *)
Definition fdiv (x y : float) : float :=
  match x, y with
  | Some a, Some b => if Req_dec_T b 0 then None else Some (a / b)
  | _, _ => None
  end.

Declare Scope float_scope.
Delimit Scope float_scope with fl.
Bind Scope float_scope with float.
Infix "+" := fadd : float_scope.
Infix "-" := fsub : float_scope.
Infix "*" := fmul : float_scope.
Infix "/" := fdiv : float_scope.
Notation "- x" := (fneg x) : float_scope.

(** Comparisons: false as soon as one side is NaN. *)
Definition Rltb (a b : R) : bool := if Rlt_dec a b then true else false.
Definition Rleb (a b : R) : bool := if Rle_dec a b then true else false.

Definition fgt (x y : float) : bool :=
  match x, y with
  | Some a, Some b => Rltb b a
  | _, _ => false
  end.

Definition fle (x y : float) : bool :=
  match x, y with
  | Some a, Some b => Rleb a b
  | _, _ => false
  end.

Infix ">?" := fgt (at level 70, no associativity) : float_scope.
Infix "<=?" := fle (at level 70, no associativity) : float_scope.

(** ** NumPy element functions *)

Module np.

Definition pi : float := Some PI.

Definition sin : float -> float := lift1 Rtrigo_def.sin.
Definition cos : float -> float := lift1 Rtrigo_def.cos.

(** [np.tan]: non-finite at the poles of the tangent. *)
Definition tan (x : float) : float :=
  match x with
  | Some a => if Req_dec_T (Rtrigo_def.cos a) 0 then None
              else Some (Rtrigo1.tan a)
  | None => None
  end.

(** [np.arccos]: NaN outside [-1, 1]. *)
Definition arccos (x : float) : float :=
  match x with
  | Some a => if Rleb (-1) a && Rleb a 1 then Some (acos a) else None
  | None => None
  end.

(** [np.radians], [np.degrees], [np.deg2rad]. *)
Definition radians (x : float) : float := (x * (PI / 180))%fl.
Definition degrees (x : float) : float := (x * (180 / PI))%fl.
Definition deg2rad : float -> float := radians.

(** [np.sign]: -1, 0 or 1, NaN for NaN. *)
Definition sign (x : float) : float :=
  match x with
  | Some a => if Rltb a 0 then Some (-1)
              else if Rltb 0 a then Some 1 else Some 0
  | None => None
  end.

(** [np.isclose(a, b, rtol=0.0, atol=atol)]: [|a - b| <= atol], false
    when a side is NaN. *)
Definition isclose (a b atol : float) : bool :=
  (fabs (a - b) <=? atol)%fl.

(** [np.where(c, x, y)] on one element. *)
Definition where_ (c : bool) (x y : float) : float := if c then x else y.

(** [np.max] of an array: raises [ValueError] on an empty array
    ([None]); a NaN element makes the maximum NaN. *)
Definition maximum (x y : float) : float :=
  match x, y with
  | Some a, Some b => Some (Rmax a b)
  | _, _ => None
  end.

Definition max (xs : list float) : option float :=
  match xs with
  | [] => None
  | x :: xs' => Some (fold_left maximum xs' x)
  end.

End np.

(** ** Day angle and equation of time *)

(** [_calculate_simple_day_angle(dayofyear, offset=1)] *)
Definition _calculate_simple_day_angle (dayofyear offset : float) : float :=
  ((2 * np.pi / 365) * (dayofyear - offset))%fl.

(** [equation_of_time_spencer71(dayofyear)] *)
Definition equation_of_time_spencer71 (dayofyear : float) : float :=
  let day_angle := _calculate_simple_day_angle dayofyear 1 in
  ((1440 / 2 / np.pi) *
   (0.0000075 +
    0.001868 * np.cos day_angle - 0.032077 * np.sin day_angle -
    0.014615 * np.cos (2 * day_angle) -
    0.040849 * np.sin (2 * day_angle)))%fl.

(** [equation_of_time_pvcdrom(dayofyear)] *)
Definition equation_of_time_pvcdrom (dayofyear : float) : float :=
  let bday :=
    (_calculate_simple_day_angle dayofyear 1 - (2 * np.pi / 365) * 80)%fl in
  (9.87 * np.sin (2 * bday) - 7.53 * np.cos bday - 1.5 * np.sin bday)%fl.

(** ** int64 arrays *)

(** NumPy integer array arithmetic wraps silently in two's complement. *)
Definition wrap64 (z : Z) : Z := ((z + 2 ^ 63) mod 2 ^ 64 - 2 ^ 63)%Z.

Definition INT64_MIN : Z := (- 2 ^ 63)%Z.

Definition int64_add (a b : Z) : Z := wrap64 (a + b).
Definition int64_sub (a b : Z) : Z := wrap64 (a - b).
Definition int64_mul (a b : Z) : Z := wrap64 (a * b).

(** An [int64] operand of a float operation is converted to [float64]. *)
Definition of_int64 (z : Z) : float := Some (IZR z).

(** Truncation toward zero, the rounding of [ndarray.astype(np.int64)]. *)
Definition Rtrunc (r : R) : Z :=
  if Rle_dec 0 r then Int_part r else (- Int_part (- r))%Z.

(** [x.astype(np.int64)] on a [float64] element.  The conversion of NaN
    and of a value outside the [int64] range is not defined by NumPy; it
    yields whatever the platform's conversion instruction yields
    ([INT64_MIN] on x86-64).  That value is the parameter [nan_cast]. *)
Definition astype_int64 (nan_cast : Z) (x : float) : Z :=
  match x with
  | Some r =>
      let z := Rtrunc r in
      if ((INT64_MIN <=? z) && (z <? 2 ^ 63))%Z then z else nan_cast
  | None => nan_cast
  end.

(** ** pandas: time zones and timezone-aware timestamps *)

(** A time zone is its table of UTC offsets in nanoseconds: [tz_base]
    applies before the first transition, and each [(start, offset)] of
    [tz_transitions] (ascending in [start], a UTC instant) applies from
    [start] on. *)
Record TimeZone : Type := {
  tz_base : Z;
  tz_transitions : list (Z * Z)
}.

Definition fixed_offset (offset : Z) : TimeZone :=
  {| tz_base := offset; tz_transitions := [] |}.

Definition UTC : TimeZone := fixed_offset 0.

(** The offset in force at the UTC instant [u]. *)
Definition utcoffset (tz : TimeZone) (u : Z) : Z :=
  fold_left (fun acc tr => if (fst tr <=? u)%Z then snd tr else acc)
            (tz_transitions tz) (tz_base tz).

(** [tz_localize(tz)] of a naive wall-clock value, with pandas' defaults
    [ambiguous='raise'] and [nonexistent='raise']: the UTC instant whose
    wall clock shows [wall], when there is exactly one; [None] stands for
    [AmbiguousTimeError] and [NonExistentTimeError]. *)
Definition tz_localize (tz : TimeZone) (wall : Z) : option Z :=
  let offsets := tz_base tz :: map snd (tz_transitions tz) in
  let instants := map (fun o => (wall - o)%Z) offsets in
  match nodup Z.eq_dec
          (filter (fun u => (u + utcoffset tz u =? wall)%Z) instants) with
  | [u] => Some u
  | _ => None
  end.

(** One entry of a timezone-aware [DatetimeIndex]: [value] is what
    [.view(np.int64)] shows, nanoseconds since the epoch in UTC. *)
Record Timestamp : Type := {
  value : Z;
  tz : TimeZone
}.

Definition NS_PER_DAY : Z := 86400000000000%Z.

(** [times.tz_localize(None).view(np.int64)]: the wall clock of [times],
    "naive but still localized". *)
Definition naive (times : Timestamp) : Z :=
  (value times + utcoffset (tz times) (value times))%Z.

(** [normalize()] of a naive value: the previous midnight. *)
Definition normalize_naive (n : Z) : Z := (n - n mod NS_PER_DAY)%Z.

(** [times.normalize()] of a timezone-aware entry: the wall clock is
    floored to midnight and localized again. *)
Definition normalize (times : Timestamp) : option Timestamp :=
  match tz_localize (tz times) (normalize_naive (naive times)) with
  | Some u => Some {| value := u; tz := tz times |}
  | None => None
  end.

(** The local calendar day of an entry, in days since the epoch. *)
Definition local_date (times : Timestamp) : Z := (naive times / NS_PER_DAY)%Z.

(** A [datetime64[ns]] element of a result: [INT64_MIN] reads as [NaT]. *)
Inductive Datetime : Type :=
  | NaT
  | Instant (utc : Z).

(** [pd.DatetimeIndex(values.astype('datetime64[ns]'), tz=tz_info)] on one
    element; [None] when the localization raises. *)
Definition DatetimeIndex (wall : Z) (tz_info : TimeZone) : option Datetime :=
  if (wall =? INT64_MIN)%Z then Some NaT
  else match tz_localize tz_info wall with
       | Some u => Some (Instant u)
       | None => None
       end.

(** ** Time/angle converters *)

Definition NS_PER_HR : float := (1e9 * 3600)%fl.

(** [hour_angle(times, longitude, equation_of_time)]; [None] when
    [times.normalize()] raises. *)
Definition hour_angle (times : Timestamp) (longitude equation_of_time : float)
  : option float :=
  let naive_times := naive times in
  match normalize times with
  | None => None
  | Some normalized =>
      let hrs_minus_tzs :=
        (1 / NS_PER_HR *
         of_int64 (int64_sub (int64_sub (int64_mul 2 (value times))
                                        (value normalized))
                             naive_times))%fl in
      Some (15 * (hrs_minus_tzs - 12) + longitude
            + equation_of_time / 4)%fl
  end.

(** [_hour_angle_to_hours(times, hourangle, longitude, equation_of_time)] *)
Definition _hour_angle_to_hours
  (times : Timestamp) (hourangle longitude equation_of_time : float) : float :=
  let naive_times := naive times in
  let tzs :=
    (1 / NS_PER_HR * of_int64 (int64_sub naive_times (value times)))%fl in
  let hours :=
    ((hourangle - longitude - equation_of_time / 4) / 15 + 12 + tzs)%fl in
  hours.

(** [_local_times_from_hours_since_midnight(times, hours)] *)
Definition _local_times_from_hours_since_midnight
  (nan_cast : Z) (times : Timestamp) (hours : float) : option Datetime :=
  let tz_info := tz times in
  let naive_times := naive times in
  DatetimeIndex
    (int64_add (normalize_naive naive_times)
               (astype_int64 nan_cast (hours * NS_PER_HR)%fl))
    tz_info.

(** [_times_to_hours_after_local_midnight(times)] *)
Definition _times_to_hours_after_local_midnight (times : Timestamp) : float :=
  let times := naive times in
  let hrs :=
    (1 / NS_PER_HR * of_int64 (int64_sub times (normalize_naive times)))%fl in
  hrs.

(** [sun_rise_set_transit_geometric(times, latitude, longitude,
    declination, equation_of_time)]: the intermediate hour angles and
    hours, then the three timestamps. *)
Definition sunset_angle (latitude declination : float) : float :=
  let latitude_rad := np.radians latitude in
  let sunset_angle_rad :=
    np.arccos (- np.tan declination * np.tan latitude_rad)%fl in
  np.degrees sunset_angle_rad.

Definition sunrise_angle (latitude declination : float) : float :=
  (- sunset_angle latitude declination)%fl.

Definition sunrise_hour (times : Timestamp)
  (latitude longitude declination equation_of_time : float) : float :=
  _hour_angle_to_hours times (sunrise_angle latitude declination)
                       longitude equation_of_time.

Definition sunset_hour (times : Timestamp)
  (latitude longitude declination equation_of_time : float) : float :=
  _hour_angle_to_hours times (sunset_angle latitude declination)
                       longitude equation_of_time.

Definition transit_hour (times : Timestamp)
  (longitude equation_of_time : float) : float :=
  _hour_angle_to_hours times 0 longitude equation_of_time.

Definition sun_rise_set_transit_geometric (nan_cast : Z) (times : Timestamp)
  (latitude longitude declination equation_of_time : float)
  : option (Datetime * Datetime * Datetime) :=
  match
    _local_times_from_hours_since_midnight nan_cast times
      (sunrise_hour times latitude longitude declination equation_of_time),
    _local_times_from_hours_since_midnight nan_cast times
      (sunset_hour times latitude longitude declination equation_of_time),
    _local_times_from_hours_since_midnight nan_cast times
      (transit_hour times longitude equation_of_time)
  with
  | Some sunrise, Some sunset, Some transit => Some (sunrise, sunset, transit)
  | _, _, _ => None
  end.

(** ** Closed-form solar position *)

(** [solar_azimuth_analytical(latitude, hourangle, declination, zenith)] *)
Definition solar_azimuth_analytical
  (latitude hourangle declination zenith : float) : float :=
  let numer :=
    (np.cos zenith * np.sin latitude - np.sin declination)%fl in
  let denom := (np.sin zenith * np.cos latitude)%fl in
  let cos_azi := (numer / denom)%fl in
  let cos_azi := np.where_ (np.isclose denom 0 1e-8) 1 cos_azi in
  let cos_azi := np.where_ (np.isclose cos_azi 1 1e-8) 1 cos_azi in
  let cos_azi := np.where_ (np.isclose cos_azi (-1) 1e-8) (-1) cos_azi in
  let sign_ha := np.sign hourangle in
  (sign_ha * np.arccos cos_azi + np.pi)%fl.

(** [solar_zenith_analytical(latitude, hourangle, declination)] in exact
    arithmetic; [binary64.solar_zenith_analytical] is the same expression
    with every operation rounded. *)
Definition solar_zenith_analytical
  (latitude hourangle declination : float) : float :=
  np.arccos
    (np.cos declination * np.cos latitude * np.cos hourangle +
     np.sin declination * np.sin latitude)%fl.

(** ** The iterative ephemeris: Kepler loop and refraction *)

Definition ndarray : Type := list float.

Fixpoint zip_with (f : float -> float -> float) (xs ys : ndarray) : ndarray :=
  match xs, ys with
  | x :: xs', y :: ys' => f x y :: zip_with f xs' ys'
  | _, _ => []
  end.

(** The right operand of an array operation: a Python scalar is broadcast
    over the array. *)
Inductive operand : Type :=
  | scalar (x : float)
  | array (xs : ndarray).

Definition broadcast_sub (xs : ndarray) (y : operand) : ndarray :=
  match y with
  | scalar c => map (fun x => (x - c)%fl) xs
  | array ys => zip_with fsub xs ys
  end.

(** How a run of the loop ends: it returns, it raises, or it is still
    running when the fuel is spent. *)
Inductive outcome (A : Type) : Type :=
  | Returned (a : A)
  | Raised
  | OutOfFuel.
Arguments Returned {A} a.
Arguments Raised {A}.
Arguments OutOfFuel {A}.

(** [x ** n] for a literal exponent. *)
Definition fpow (x : float) (n : nat) : float := lift1 (fun r => r ^ n) x.

(** [Eccen = 0.01675104 - 4.18e-05 * T1 - 1.26e-07 * T1 ** 2] *)
Definition Eccen_of (T1 : float) : float :=
  (0.01675104 - 4.18e-05 * T1 - 1.26e-07 * fpow T1 2)%fl.

(** The body of the [while] loop:
    [EccenAnom = MeanAnom + np.degrees(Eccen)*np.sin(np.radians(E))]. *)
Definition kepler_update (MeanAnom Eccen E : ndarray) : ndarray :=
  zip_with fadd MeanAnom
    (zip_with fmul (map np.degrees Eccen)
                   (map (fun x => np.sin (np.radians x)) E)).

(** [while np.max(abs(EccenAnom - E)) > 0.0001: ...], with the number of
    passes through the body counted in [n].  The arrays of [ephemeris]
    all have the length of [time_utc]. *)
Fixpoint kepler_while (fuel : nat) (MeanAnom Eccen EccenAnom : ndarray)
  (E : operand) (n : nat) : outcome (ndarray * nat) :=
  match np.max (map fabs (broadcast_sub EccenAnom E)) with
  | None => Raised
  | Some change =>
      if (change >? 0.0001)%fl then
        match fuel with
        | O => OutOfFuel
        | S fuel' =>
            let E := EccenAnom in
            let EccenAnom := kepler_update MeanAnom Eccen E in
            kepler_while fuel' MeanAnom Eccen EccenAnom (array E) (S n)
        end
      else Returned (EccenAnom, n)
  end.

(** [EccenAnom = MeanAnom; E = 0; while ...] *)
Definition ephemeris_EccenAnom (fuel : nat) (MeanAnom Eccen : ndarray)
  : outcome (ndarray * nat) :=
  let EccenAnom := MeanAnom in
  let E := scalar 0 in
  kepler_while fuel MeanAnom Eccen EccenAnom E 0.

(** The refraction correction of one element, before scaling: the three
    masked assignments to [Refract], in the order of the source. *)
Definition ephemeris_Refract (Elevation : float) : float :=
  let TanEl := np.tan (np.radians Elevation) in
  let Refract : float := 0 in
  let Refract :=
    if (Elevation >? 5)%fl && (Elevation <=? 85)%fl then
      (58.1 / TanEl - 0.07 / fpow TanEl 3 + 8.6e-05 / fpow TanEl 5)%fl
    else Refract in
  let Refract :=
    if (Elevation >? -0.575)%fl && (Elevation <=? 5)%fl then
      (Elevation *
       (-518.2 + Elevation * (103.4 + Elevation * (-12.79 + Elevation * 0.711)))
       + 1735)%fl
    else Refract in
  let Refract :=
    if (Elevation >? -1)%fl && (Elevation <=? -0.575)%fl then
      (-20.774 / TanEl)%fl
    else Refract in
  Refract.

(** [Refract *= (283/(273. + temperature)) * (pressure/101325.) / 3600.]
    and [ApparentSunEl = SunEl + Refract]. *)
Definition ephemeris_ApparentSunEl (SunEl temperature pressure : float)
  : float :=
  let Refract := ephemeris_Refract SunEl in
  let Refract :=
    (Refract * ((283 / (273 + temperature)) * (pressure / 101325) / 3600))%fl
  in
  (SunEl + Refract)%fl.

(** ** Specification-level quantities *)

(** The sign of a real number, as a real number. *)
Definition Rsign (x : R) : R :=
  if Rlt_dec x 0 then -1 else if Rlt_dec 0 x then 1 else 0.

(** The cosine ratio of the azimuth formula after its guards, on finite
    arguments: 1 when the denominator is within 1e-8 of zero, otherwise the
    quotient with a value within 1e-8 of 1 or of -1 moved onto that bound. *)
Definition clamped_cos_azi (latitude declination zenith : R) : R :=
  let numer := cos zenith * sin latitude - sin declination in
  let denom := sin zenith * cos latitude in
  if Rle_dec (Rabs denom) 1e-8 then 1
  else if Rle_dec (Rabs (numer / denom - 1)) 1e-8 then 1
  else if Rle_dec (Rabs (numer / denom + 1)) 1e-8 then -1
  else numer / denom.

(** The values an [int64] holds. *)
Definition in_int64 (z : Z) : Prop := (- 2 ^ 63 <= z < 2 ^ 63)%Z.

(** Hours shown by the local wall clock since local midnight, and the UTC
    offset in hours. *)
Definition wall_clock_hours (t : Timestamp) : R :=
  IZR (naive t mod NS_PER_DAY) / (1e9 * 3600).

Definition utc_offset_hours (t : Timestamp) : R :=
  IZR (utcoffset (tz t) (value t)) / (1e9 * 3600).

(** The hour angle as the specification words it: 15 degrees times
    (local-clock hours - UTC offset in hours - 12), plus longitude, plus a
    quarter of the equation of time. *)
Definition hour_angle_formula
  (t : Timestamp) (longitude equation_of_time : R) : R :=
  15 * (wall_clock_hours t - utc_offset_hours t - 12)
  + longitude + equation_of_time / 4.

(** ** Sample zones and timestamps *)

Definition HOUR : Z := 3600000000000%Z.

(** US/Eastern around 2023: EST, daylight time from 2023-03-12 07:00 UTC,
    EST again from 2023-11-05 06:00 UTC. *)
Definition US_Eastern : TimeZone :=
  {| tz_base := (-5 * HOUR)%Z;
     tz_transitions := [ (1678604400000000000, -4 * HOUR);
                         (1699164000000000000, -5 * HOUR) ]%Z |}.

(** 2023-03-12 12:00 US/Eastern (16:00 UTC), ten hours after the clocks
    went forward. *)
Definition new_york_noon : Timestamp :=
  {| value := 1678636800000000000; tz := US_Eastern |}.

(** 2023-06-21 18:00 UTC, as 11:00 at UTC-7 and as 18:00 UTC. *)
Definition golden_solstice : Timestamp :=
  {| value := 1687370400000000000; tz := fixed_offset (-7 * HOUR) |}.

Definition late_utc : Timestamp :=
  {| value := 1687370400000000000; tz := UTC |}.

(** 2023-06-21 02:00 UTC, as 02:00 UTC and as 21:00 of the day before at
    UTC-5. *)
Definition early_utc : Timestamp :=
  {| value := 1687312800000000000; tz := UTC |}.

Definition early_est : Timestamp :=
  {| value := 1687312800000000000; tz := fixed_offset (-5 * HOUR) |}.

(** 2023-12-21 12:00 UTC and the declination of the winter solstice,
    [np.radians(-23.45)]. *)
Definition winter_noon : Timestamp :=
  {| value := 1703160000000000000; tz := UTC |}.

Definition winter_declination : R := - (23.45 * (PI / 180)).

(** ** Quantities used to state the Kepler loop properties *)

(** One pass of the Kepler update on one finite element, in degrees. *)
Definition kepler_next (m e x : R) : R :=
  m + e * (180 / PI) * sin (x * (PI / 180)).

(** The state of one element across the loop: mean anomaly, eccentricity
    and the previous iterate [E]. *)
Record kepler_row : Type := {
  row_m : R;
  row_e : R;
  row_y : R
}.

Definition row_next (r : kepler_row) : R :=
  kepler_next (row_m r) (row_e r) (row_y r).

Definition row_step (r : kepler_row) : kepler_row :=
  {| row_m := row_m r; row_e := row_e r; row_y := row_next r |}.

(** NaN, or a finite value that is at most [B]. *)
Definition bounded (B : R) (x : float) : Prop :=
  match x with
  | Some a => a <= B
  | None => True
  end.

(** ** Solar declination series *)

(** [declination_spencer71(dayofyear)] *)
Definition declination_spencer71 (dayofyear : float) : float :=
  let day_angle := _calculate_simple_day_angle dayofyear 1 in
  (0.006918 -
   0.399912 * np.cos day_angle + 0.070257 * np.sin day_angle -
   0.006758 * np.cos (2 * day_angle) + 0.000907 * np.sin (2 * day_angle) -
   0.002697 * np.cos (3 * day_angle) + 0.00148 * np.sin (3 * day_angle))%fl.

(** [declination_cooper69(dayofyear)] *)
Definition declination_cooper69 (dayofyear : float) : float :=
  let day_angle := _calculate_simple_day_angle dayofyear 1 in
  let dec :=
    np.deg2rad (23.45 * np.sin (day_angle + (2 * np.pi / 365) * 285))%fl in
  dec.

(** ** PyEphem dates *)

(** Python 3's [round(x)] of a float: the nearest integer, a tie going
    to the even one. *)
Definition py_round (x : R) : Z :=
  let f := Int_part x in
  let d := x - IZR f in
  if Rlt_dec d (1 / 2) then f
  else if Rlt_dec (1 / 2) d then (f + 1)%Z
  else if Z.even f then f else (f + 1)%Z.

(** [_ephem_convert_to_seconds_and_microseconds(date)]; [None] when
    [round] raises on NaN. *)
Definition _ephem_convert_to_seconds_and_microseconds (date : float)
  : option (Z * Z) :=
  match (24 * 60 * 60 * 1000000 * date)%fl with
  | Some x =>
      let microseconds := py_round x in
      let seconds := (microseconds / 1000000)%Z in
      let microseconds := (microseconds mod 1000000)%Z in
      let seconds := (seconds - 2209032000)%Z in
      Some (seconds, microseconds)
  | None => None
  end.

(** ** The iterative ephemeris: the whole function *)

(** [np.floor]. *)
Definition ffloor (x : float) : float := lift1 (fun r => IZR (Int_part r)) x.

(** [np.mod(x, y)]: the remainder with the sign of the divisor,
    [x - floor(x / y) * y]; non-finite for [y = 0]. *)
Definition fmod (x y : float) : float := (x - ffloor (x / y) * y)%fl.

(** [x ** 0.5]: NaN for a negative base. *)
Definition fsqrt (x : float) : float :=
  match x with
  | Some a => if Rleb 0 a then Some (sqrt a) else None
  | None => None
  end.

(** [np.arcsin]: NaN outside [-1, 1]. *)
Definition arcsin (x : float) : float :=
  match x with
  | Some a => if Rleb (-1) a && Rleb a 1 then Some (asin a) else None
  | None => None
  end.

(** The angle of the point [(x, y)], in (-pi, pi]. *)
Definition Ratan2 (y x : R) : R :=
  if Rlt_dec 0 x then atan (y / x)
  else if Rlt_dec x 0 then
    if Rle_dec 0 y then atan (y / x) + PI else atan (y / x) - PI
  else if Rlt_dec 0 y then PI / 2
  else if Rlt_dec y 0 then - (PI / 2)
  else 0.

(** [np.arctan2(y, x)] *)
Definition arctan2 : float -> float -> float := lift2 Ratan2.

(** One entry of [time_utc], through the fields the function reads. *)
Record UtcFields : Type := {
  year : Z;
  dayofyear : Z;
  hour : Z;
  minute : Z;
  second : Z;
  microsecond : Z
}.

(** One row of the returned [DataFrame]. *)
Record SolarPosition : Type := {
  apparent_elevation : float;
  elevation : float;
  azimuth : float;
  apparent_zenith : float;
  zenith : float;
  solar_time : float
}.

(** [DecHours] (which is [UnivHr]) *)
Definition DecHours (t : UtcFields) : float :=
  (of_int64 (hour t) + of_int64 (minute t) / 60 + of_int64 (second t) / 3600
   + of_int64 (microsecond t) / 3600e6)%fl.

(** [Ezero = YrBegin + UnivDate] *)
Definition Ezero (t : UtcFields) : float :=
  let Yr := (year t - 1900)%Z in
  let YrBegin :=
    (of_int64 (365 * Yr) + ffloor (of_int64 (Yr - 1) / 4) - 0.5)%fl in
  (YrBegin + of_int64 (dayofyear t))%fl.

(** [LocAST], the local apparent sidereal time *)
Definition LocAST (t : UtcFields) (longitude : float) : float :=
  let Longitude := (-1 * longitude)%fl in
  let UnivHr := DecHours t in
  let T := (Ezero t / 36525)%fl in
  let GMST0 :=
    (6 / 24 + 38 / 1440
     + (45.836 + 8640184.542 * T + 0.0929 * fpow T 2) / 86400)%fl in
  let GMST0 := (360 * (GMST0 - ffloor GMST0))%fl in
  let GMSTi := fmod (GMST0 + 360 * (1.0027379093 * UnivHr / 24))%fl 360 in
  fmod (360 + GMSTi - Longitude)%fl 360.

(** [EpochDate] and [T1] *)
Definition EpochDate (t : UtcFields) : float :=
  (Ezero t + DecHours t / 24)%fl.

Definition T1 (t : UtcFields) : float := (EpochDate t / 36525)%fl.

(** [ObliquityR], [MlPerigee], [MeanAnom], [Eccen] *)
Definition ObliquityR (t : UtcFields) : float :=
  let T1 := T1 t in
  np.radians
    (23.452294 - 0.0130125 * T1 - 1.64e-06 * fpow T1 2
     + 5.03e-07 * fpow T1 3)%fl.

Definition MlPerigee (t : UtcFields) : float :=
  let EpochDate := EpochDate t in
  let T1 := T1 t in
  (281.22083 + 4.70684e-05 * EpochDate + 0.000453 * fpow T1 2
   + (3e-06 * fpow T1 3))%fl.

Definition MeanAnom (t : UtcFields) : float :=
  let EpochDate := EpochDate t in
  let T1 := T1 t in
  fmod (358.47583 + 0.985600267 * EpochDate - 0.00015 * fpow T1 2
        - 3e-06 * fpow T1 3)%fl 360.

Definition Eccen (t : UtcFields) : float := Eccen_of (T1 t).

(** The part of the function after the loop, for one entry and its
    eccentric anomaly. *)
Definition ephemeris_row (t : UtcFields)
  (latitude longitude pressure temperature EccenAnom : float)
  : SolarPosition :=
  let Latitude := latitude in
  let Abber : float := (20 / 3600)%fl in
  let LatR := np.radians Latitude in
  let LocAST := LocAST t longitude in
  let ObliquityR := ObliquityR t in
  let MlPerigee := MlPerigee t in
  let Eccen := Eccen t in
  let TrueAnom :=
    (2 * fmod (np.degrees
                 (arctan2 (fsqrt ((1 + Eccen) / (1 - Eccen))
                           * np.tan (np.radians EccenAnom / 2)) 1)) 360)%fl in
  let EcLon := (fmod (MlPerigee + TrueAnom) 360 - Abber)%fl in
  let EcLonR := np.radians EcLon in
  let DecR := arcsin (np.sin ObliquityR * np.sin EcLonR)%fl in
  let RtAscen :=
    np.degrees (arctan2 (np.cos ObliquityR * np.sin EcLonR)%fl
                        (np.cos EcLonR)) in
  let HrAngle := (LocAST - RtAscen)%fl in
  let HrAngleR := np.radians HrAngle in
  let HrAngle :=
    (HrAngle - (if (fabs HrAngle >? 180)%fl then 360 else 0))%fl in
  let SunAz :=
    np.degrees
      (arctan2 (- np.sin HrAngleR)%fl
               (np.cos LatR * np.tan DecR
                - np.sin LatR * np.cos HrAngleR)%fl) in
  let SunAz := if (0 >? SunAz)%fl then (SunAz + 360)%fl else SunAz in
  let SunEl :=
    np.degrees
      (arcsin (np.cos LatR * np.cos DecR * np.cos HrAngleR
               + np.sin LatR * np.sin DecR)%fl) in
  let SolarTime := ((180 + HrAngle) / 15)%fl in
  let ApparentSunEl := ephemeris_ApparentSunEl SunEl temperature pressure in
  {| apparent_elevation := ApparentSunEl;
     elevation := SunEl;
     azimuth := SunAz;
     apparent_zenith := (90 - ApparentSunEl)%fl;
     zenith := (90 - SunEl)%fl;
     solar_time := SolarTime |}.

Fixpoint rows_of (time_utc : list UtcFields) (EccenAnom : ndarray)
  (row : UtcFields -> float -> SolarPosition) : list SolarPosition :=
  match time_utc, EccenAnom with
  | t :: time_utc', E :: EccenAnom' =>
      row t E :: rows_of time_utc' EccenAnom' row
  | _, _ => []
  end.

(** [ephemeris(time, latitude, longitude, pressure, temperature)] on the
    UTC fields of [time]; the index entries are taken to be distinct, as
    the masked assignments to [Refract] need. *)
Definition ephemeris (fuel : nat) (time_utc : list UtcFields)
  (latitude longitude pressure temperature : float)
  : outcome (list SolarPosition) :=
  match ephemeris_EccenAnom fuel (map MeanAnom time_utc)
                            (map Eccen time_utc) with
  | Returned (EccenAnom, _) =>
      Returned
        (rows_of time_utc EccenAnom
           (fun t E =>
              ephemeris_row t latitude longitude pressure temperature E))
  | Raised => Raised
  | OutOfFuel => OutOfFuel
  end.

(** NaN, or a finite value between [lo] and [hi]. *)
Definition within (lo hi : R) (x : float) : Prop :=
  match x with
  | Some a => lo <= a <= hi
  | None => True
  end.

(** The calendar fields of a timestamp that pandas can hold. *)
Definition calendar_fields (t : UtcFields) : Prop :=
  (1677 <= year t <= 2262 /\ 1 <= dayofyear t <= 366
   /\ 0 <= hour t <= 23 /\ 0 <= minute t <= 59
   /\ 0 <= second t <= 59 /\ 0 <= microsecond t <= 999999)%Z.

(** ** The Kepler loop, pass by pass *)



(** ** binary64: the closed-form zenith with rounding *)

Module binary64.

(** [np.cos], [np.sin] and [np.arccos] of a [float64] are functions of the
    C library, which is no part of the repository: they are a parameter. *)
Record libm : Type := {
  cos : PrimFloat.float -> PrimFloat.float;
  sin : PrimFloat.float -> PrimFloat.float;
  arccos : PrimFloat.float -> PrimFloat.float
}.

(** [solar_zenith_analytical(latitude, hourangle, declination)], each
    product and the sum rounded as the processor rounds them. *)
Definition solar_zenith_analytical (np : libm)
  (latitude hourangle declination : PrimFloat.float) : PrimFloat.float :=
  arccos np
    (PrimFloat.add
       (PrimFloat.mul
          (PrimFloat.mul (cos np declination) (cos np latitude))
          (cos np hourangle))
       (PrimFloat.mul (sin np declination) (sin np latitude))).

(** The positive [float64] with mantissa [m] and exponent [e]. *)
Definition double (m : positive) (e : Z) : PrimFloat.float :=
  FloatOps.SF2Prim (SpecFloat.S754_finite false m e).

(** The real number that a finite [float64] stands for. *)
Definition to_R (x : PrimFloat.float) : R :=
  match FloatOps.Prim2SF x with
  | SpecFloat.S754_finite s m e =>
      let v := if (e <? 0)%Z then IZR (Zpos m) / IZR (2 ^ (- e))
               else IZR (Zpos m * 2 ^ e) in
      if s then - v else v
  | _ => 0
  end.

Definition finite (x : PrimFloat.float) : bool :=
  match FloatOps.Prim2SF x with
  | SpecFloat.S754_finite _ _ _ | SpecFloat.S754_zero _ => true
  | _ => false
  end.

(** [y] is a [float64] nearest to the real number [r]: what a correctly
    rounded function returns where its exact value is [r]. *)
Definition nearest (r : R) (y : PrimFloat.float) : Prop :=
  finite y = true
  /\ forall z : PrimFloat.float,
       finite z = true -> Rabs (r - to_R y) <= Rabs (r - to_R z).

End binary64.

(** ** A latitude and declination of 8 degrees in binary64 *)

(** 8 degrees in radians, [np.radians(8.0)] = 0.13962634015954636. *)
Definition radians_8 : PrimFloat.float :=
  binary64.double 0x11df46a2529d39 (-55).

(** What a correctly rounded C library returns for its cosine and sine. *)
Definition cos_radians_8 : PrimFloat.float :=
  binary64.double 0x1fb046a930947a (-53).
Definition sin_radians_8 : PrimFloat.float :=
  binary64.double 0x11d06c968d9e19 (-55).

(** A C library given by its values at the arguments that occur at
    latitude = declination = 8 degrees and hour angle 0. *)
Definition libm_8_degrees : binary64.libm :=
  {| binary64.cos :=
       fun x => if PrimFloat.eqb x PrimFloat.zero then PrimFloat.one
                else cos_radians_8;
     binary64.sin := fun _ => sin_radians_8;
     binary64.arccos :=
       fun a => if PrimFloat.ltb PrimFloat.one a then PrimFloat.nan
                else PrimFloat.zero |}.

(** * Properties *)

(** ** Reasoning on idealised floats *)

Lemma Rltb_true (a b : R) : a < b -> Rltb a b = true.
Proof. intros H. unfold Rltb. destruct (Rlt_dec a b); [reflexivity | contradiction]. Qed.

Lemma Rltb_false (a b : R) : b <= a -> Rltb a b = false.
Proof. intros H. unfold Rltb. destruct (Rlt_dec a b); [lra | reflexivity]. Qed.

Lemma Rleb_true (a b : R) : a <= b -> Rleb a b = true.
Proof. intros H. unfold Rleb. destruct (Rle_dec a b); [reflexivity | contradiction]. Qed.

Lemma Rleb_false (a b : R) : b < a -> Rleb a b = false.
Proof. intros H. unfold Rleb. destruct (Rle_dec a b); [lra | reflexivity]. Qed.

Lemma fdiv_finite (a b : R) : b <> 0 -> (of_R a / of_R b)%fl = of_R (a / b).
Proof.
  intros Hb. unfold fdiv, of_R.
  destruct (Req_dec_T b 0); [contradiction | reflexivity].
Qed.

Lemma fdiv_zero (a : R) : (of_R a / of_R 0)%fl = nan.
Proof.
  unfold fdiv, of_R. destruct (Req_dec_T 0 0); [reflexivity | contradiction].
Qed.

Lemma fadd_finite (a b : R) : (of_R a + of_R b)%fl = of_R (a + b).
Proof. reflexivity. Qed.

Lemma fsub_finite (a b : R) : (of_R a - of_R b)%fl = of_R (a - b).
Proof. reflexivity. Qed.

Lemma fmul_finite (a b : R) : (of_R a * of_R b)%fl = of_R (a * b).
Proof. reflexivity. Qed.

Lemma of_R_inj (a b : R) : of_R a = of_R b -> a = b.
Proof. intros H. injection H. trivial. Qed.

Lemma fgt_finite (a b : R) : (of_R a >? of_R b)%fl = Rltb b a.
Proof. reflexivity. Qed.

Lemma fle_finite (a b : R) : (of_R a <=? of_R b)%fl = Rleb a b.
Proof. reflexivity. Qed.

Lemma fpow_finite (a : R) (n : nat) : fpow (of_R a) n = of_R (a ^ n).
Proof. reflexivity. Qed.

(** Rewrites the operations on finite operands into real arithmetic. *)
Ltac finite :=
  repeat (first
    [ rewrite fadd_finite
    | rewrite fsub_finite
    | rewrite fmul_finite
    | rewrite fdiv_finite by (try apply PI_neq0; lra) ]).

(** ** Equation of time *)

(** C9: the three-term equation of time is
    9.87 sin(2b) - 7.53 cos(b) - 1.5 sin(b) with the day angle
    b = (2 pi / 365) (dayofyear - 81), for every day of year (NaN gives
    NaN on both sides). *)
Theorem equation_of_time_pvcdrom_day81 (dayofyear : float) :
  let b := ((2 * np.pi / 365) * (dayofyear - 81))%fl in
  equation_of_time_pvcdrom dayofyear
  = (9.87 * np.sin (2 * b) - 7.53 * np.cos b - 1.5 * np.sin b)%fl.
Proof.
  intros b. subst b. unfold equation_of_time_pvcdrom.
  assert (E : (_calculate_simple_day_angle dayofyear 1
               - (2 * np.pi / 365) * 80)%fl
              = ((2 * np.pi / 365) * (dayofyear - 81))%fl).
  { unfold _calculate_simple_day_angle, np.pi.
    change (Some PI) with (of_R PI). finite.
    destruct dayofyear as [d|]; [|reflexivity].
    change (Some d) with (of_R d). finite.
    f_equal. field. }
  rewrite E. reflexivity.
Qed.

(** ** Closed-form solar position *)

Lemma arccos_in_range (a : R) :
  -1 <= a <= 1 -> np.arccos (of_R a) = of_R (acos a).
Proof.
  intros [Hl Hu]. unfold np.arccos, of_R.
  rewrite (Rleb_true _ _ Hl), (Rleb_true _ _ Hu). reflexivity.
Qed.

Lemma arccos_out_of_range (a : R) :
  a < -1 \/ 1 < a -> np.arccos (of_R a) = nan.
Proof.
  intros [H | H]; unfold np.arccos, of_R.
  - rewrite (Rleb_false _ _ H). reflexivity.
  - rewrite (Rleb_false _ _ H), andb_false_r. reflexivity.
Qed.

Lemma sign_finite (h : R) : np.sign (of_R h) = of_R (Rsign h).
Proof.
  unfold np.sign, Rsign, Rltb, of_R.
  destruct (Rlt_dec h 0); [reflexivity|].
  destruct (Rlt_dec 0 h); reflexivity.
Qed.

Lemma isclose_finite (a b tol : R) :
  np.isclose (of_R a) (of_R b) (of_R tol) = Rleb (Rabs (a - b)) tol.
Proof. reflexivity. Qed.

(** The guards of [solar_azimuth_analytical] compute [clamped_cos_azi]:
    on finite arguments the value that reaches [np.arccos] is finite. *)
Lemma solar_azimuth_analytical_guards (latitude hourangle declination zenith : R) :
  solar_azimuth_analytical latitude hourangle declination zenith
  = (np.sign hourangle
     * np.arccos (of_R (clamped_cos_azi latitude declination zenith))
     + np.pi)%fl.
Proof.
  unfold solar_azimuth_analytical, clamped_cos_azi.
  cbn [np.sin np.cos lift1 of_R]. fold (of_R (cos zenith)).
  change (Some ?x) with (of_R x). finite.
  set (numer := cos zenith * sin latitude - sin declination).
  set (denom := sin zenith * cos latitude).
  rewrite isclose_finite. replace (denom - 0) with denom by ring.
  destruct (Rle_dec (Rabs denom) 1e-8) as [Hd | Hd].
  - rewrite (Rleb_true _ _ Hd). cbn [np.where_].
    rewrite !isclose_finite.
    replace (1 - 1) with 0 by ring. rewrite Rabs_R0.
    rewrite Rleb_true by lra. cbn [np.where_].
    rewrite isclose_finite.
    replace (1 - -1) with 2 by ring. rewrite (Rabs_pos_eq 2) by lra.
    rewrite Rleb_false by lra. reflexivity.
  - rewrite Rleb_false by lra. cbn [np.where_].
    assert (Hnz : denom <> 0).
    { intros E. apply Hd. rewrite E, Rabs_R0. lra. }
    rewrite (fdiv_finite _ _ Hnz). rewrite isclose_finite.
    destruct (Rle_dec (Rabs (numer / denom - 1)) 1e-8) as [H1 | H1].
    + rewrite (Rleb_true _ _ H1). cbn [np.where_].
      rewrite isclose_finite.
      replace (1 - -1) with 2 by ring. rewrite (Rabs_pos_eq 2) by lra.
      rewrite Rleb_false by lra. reflexivity.
    + rewrite Rleb_false by lra. cbn [np.where_].
      rewrite isclose_finite.
      replace (numer / denom - -1) with (numer / denom + 1) by ring.
      destruct (Rle_dec (Rabs (numer / denom + 1)) 1e-8) as [H2 | H2].
      * rewrite (Rleb_true _ _ H2). reflexivity.
      * rewrite Rleb_false by lra. reflexivity.
Qed.

Lemma Rsign_cases (h : R) : Rsign h = -1 \/ Rsign h = 0 \/ Rsign h = 1.
Proof.
  unfold Rsign. destruct (Rlt_dec h 0); [auto|].
  destruct (Rlt_dec 0 h); auto.
Qed.

Lemma Rsign_0 : Rsign 0 = 0.
Proof.
  unfold Rsign. destruct (Rlt_dec 0 0); [lra|]. reflexivity.
Qed.

Lemma Rsign_pos (h : R) : 0 < h -> Rsign h = 1.
Proof.
  intros H. unfold Rsign. destruct (Rlt_dec h 0); [lra|].
  destruct (Rlt_dec 0 h); [reflexivity | lra].
Qed.

(** On finite arguments the azimuth is [sign(h) * acos(ratio) + pi] when the
    guarded ratio lies in [-1, 1], and NaN when it does not. *)
Lemma solar_azimuth_analytical_finite (latitude hourangle declination zenith : R) :
  let r := clamped_cos_azi latitude declination zenith in
  solar_azimuth_analytical latitude hourangle declination zenith
  = if Rleb (-1) r && Rleb r 1
    then of_R (Rsign hourangle * acos r + PI) else nan.
Proof.
  intros r. rewrite solar_azimuth_analytical_guards. fold r.
  rewrite sign_finite. unfold np.arccos, of_R.
  destruct (Rleb (-1) r && Rleb r 1); reflexivity.
Qed.

Lemma clamped_cos_azi_pole (latitude declination zenith : R) :
  cos latitude = 0 -> clamped_cos_azi latitude declination zenith = 1.
Proof.
  intros H. unfold clamped_cos_azi. rewrite H, Rmult_0_r, Rabs_R0.
  destruct (Rle_dec 0 1e-8); [reflexivity | lra].
Qed.

(** C10, as amended: with hour angle exactly 0 the azimuth is exactly pi
    when the guarded cosine ratio lies in [-1, 1]; when it lies outside,
    the arccos is NaN, the factor sign(0) = 0 does not remove it, and the
    azimuth is NaN. *)
Theorem solar_azimuth_analytical_noon (latitude declination zenith : R) :
  let r := clamped_cos_azi latitude declination zenith in
  solar_azimuth_analytical latitude 0 declination zenith
  = if Rleb (-1) r && Rleb r 1 then np.pi else nan.
Proof.
  intros r. rewrite solar_azimuth_analytical_finite. fold r.
  destruct (Rleb (-1) r && Rleb r 1); [|reflexivity].
  rewrite Rsign_0. unfold np.pi, of_R. f_equal. ring.
Qed.

(** C10, counterexample: latitude 0, declination pi/2, zenith pi/6 are
    finite, the ratio is -2, and the azimuth at hour angle 0 is NaN, not
    pi. *)
Lemma solar_azimuth_analytical_noon_nan :
  solar_azimuth_analytical 0 0 (PI / 2)%R (PI / 6)%R = nan
  /\ solar_azimuth_analytical 0 0 (PI / 2)%R (PI / 6)%R <> np.pi.
Proof.
  assert (E : solar_azimuth_analytical 0 0 (PI / 2)%R (PI / 6)%R = nan).
  { rewrite solar_azimuth_analytical_finite.
    assert (R2 : clamped_cos_azi 0 (PI / 2) (PI / 6) = -2).
    { unfold clamped_cos_azi.
      rewrite sin_0, cos_0, sin_PI2, sin_PI6.
      replace (cos (PI / 6) * 0 - 1) with (-1) by ring.
      replace (1 / 2 * 1) with (1 / 2) by field.
      replace (-1 / (1 / 2)) with (-2) by field.
      replace (-2 - 1) with (-3) by ring.
      replace (-2 + 1) with (-1) by ring.
      rewrite (Rabs_pos_eq (1 / 2)) by lra.
      rewrite (Rabs_left (-3)) by lra. rewrite (Rabs_left (-1)) by lra.
      destruct (Rle_dec (1 / 2) 1e-8); [lra|].
      destruct (Rle_dec (- -3) 1e-8); [lra|].
      destruct (Rle_dec (- -1) 1e-8); [lra|]. reflexivity. }
    rewrite R2. rewrite (Rleb_false (-1) (-2)) by lra. reflexivity. }
  split; [exact E|]. rewrite E. discriminate.
Qed.

(** C5, as amended: on finite arguments the cosine ratio is replaced by 1
    when the denominator is within 1e-8 of zero and moved onto 1 or -1
    when within 1e-8 of it ([clamped_cos_azi]); the result is
    sign(hourangle) * arccos(ratio) + pi when that ratio lies in [-1, 1]
    and NaN otherwise; in the first case it lies in the closed interval
    [0, 2 pi]; at a pole (cos(latitude) = 0) it is pi. *)
Theorem solar_azimuth_analytical_range (latitude hourangle declination zenith : R) :
  let r := clamped_cos_azi latitude declination zenith in
  solar_azimuth_analytical latitude hourangle declination zenith
  = (if Rleb (-1) r && Rleb r 1
     then of_R (Rsign hourangle * acos r + PI) else nan)
  /\ 0 <= Rsign hourangle * acos r + PI <= 2 * PI
  /\ (cos latitude = 0 ->
      solar_azimuth_analytical latitude hourangle declination zenith = np.pi).
Proof.
  intros r. split; [apply solar_azimuth_analytical_finite|]. split.
  - pose proof (acos_bound r) as [H0 H1].
    destruct (Rsign_cases hourangle) as [E | [E | E]]; rewrite E; lra.
  - intros Hpole. rewrite solar_azimuth_analytical_finite.
    rewrite (clamped_cos_azi_pole _ _ _ Hpole).
    rewrite !Rleb_true by lra. cbn [andb].
    rewrite acos_1. unfold np.pi, of_R. f_equal. ring.
Qed.

(** The pole case of the theorem, at the north pole. *)
Lemma solar_azimuth_analytical_range_witness :
  solar_azimuth_analytical (PI / 2)%R 1 0 (PI / 4)%R = np.pi.
Proof.
  apply (solar_azimuth_analytical_range (PI / 2) 1 0 (PI / 4)).
  apply cos_PI2.
Defined.

(** C5, counterexample: latitude pi/4, declination 0, hour angle pi (solar
    midnight) and the zenith 3 pi/4 that goes with them give the ratio -1
    and the azimuth 2 pi, which is not in [0, 2 pi). *)
Lemma solar_azimuth_analytical_reaches_2PI :
  solar_azimuth_analytical (PI / 4)%R PI 0 (3 * (PI / 4))%R = of_R (2 * PI)
  /\ ~ (exists v : R,
          solar_azimuth_analytical (PI / 4)%R PI 0 (3 * (PI / 4))%R = of_R v
          /\ 0 <= v < 2 * PI).
Proof.
  assert (E : solar_azimuth_analytical (PI / 4)%R PI 0 (3 * (PI / 4))%R
              = of_R (2 * PI)).
  { rewrite solar_azimuth_analytical_finite.
    assert (Hs : sqrt 2 * sqrt 2 = 2) by (apply sqrt_sqrt; lra).
    pose proof sqrt2_neq_0 as Hs0.
    assert (R1 : clamped_cos_azi (PI / 4) 0 (3 * (PI / 4)) = -1).
    { unfold clamped_cos_azi.
      rewrite sin_0, cos_3PI4, sin_3PI4, sin_PI4, cos_PI4.
      replace (-1 / sqrt 2 * (1 / sqrt 2) - 0) with (- / (sqrt 2 * sqrt 2))
        by (field; assumption).
      replace (1 / sqrt 2 * (1 / sqrt 2)) with (/ (sqrt 2 * sqrt 2))
        by (field; assumption).
      rewrite Hs.
      replace (- / 2 / / 2) with (-1) by field.
      replace (-1 - 1) with (-2) by ring.
      replace (-1 + 1) with 0 by ring.
      rewrite (Rabs_pos_eq (/ 2)) by lra.
      rewrite (Rabs_left (-2)) by lra. rewrite Rabs_R0.
      destruct (Rle_dec (/ 2) 1e-8); [lra|].
      destruct (Rle_dec (- -2) 1e-8); [lra|].
      destruct (Rle_dec 0 1e-8); [reflexivity | lra]. }
    rewrite R1. rewrite !Rleb_true by lra. cbn [andb].
    rewrite (Rsign_pos PI PI_RGT_0).
    replace (-1) with (- (1)) by ring. rewrite acos_opp, acos_1.
    f_equal. ring. }
  split; [exact E|].
  intros [v [Hv Hrange]]. rewrite E in Hv. apply of_R_inj in Hv. lra.
Qed.

(** In exact arithmetic the zenith at hour angle 0 is
    |latitude - declination|, for latitude and declination between -pi/2
    and pi/2: the formula is right.  What the program returns is settled
    on binary64, below. *)
Lemma solar_zenith_analytical_noon_exact (latitude declination : R) :
  - (PI / 2) <= latitude <= PI / 2 ->
  - (PI / 2) <= declination <= PI / 2 ->
  solar_zenith_analytical latitude 0 declination
  = of_R (Rabs (latitude - declination)).
Proof.
  intros Hl Hd. unfold solar_zenith_analytical.
  cbn [np.sin np.cos lift1 of_R]. change (Some ?x) with (of_R x). finite.
  rewrite cos_0.
  replace (cos declination * cos latitude * 1 + sin declination * sin latitude)
    with (cos (latitude - declination)) by (rewrite cos_minus; ring).
  rewrite arccos_in_range by apply COS_bound.
  f_equal.
  destruct (Rle_dec 0 (latitude - declination)) as [Hpos | Hneg].
  - rewrite Rabs_pos_eq by assumption. apply acos_cos. lra.
  - rewrite Rabs_left by lra. rewrite <- cos_neg. apply acos_cos. lra.
Qed.

(** ** binary64: finite values and their grid *)

Lemma digits2_pos_bounds (m : positive) :
  (2 ^ (Zpos (SpecFloat.digits2_pos m) - 1) <= Zpos m
   < 2 ^ Zpos (SpecFloat.digits2_pos m))%Z.
Proof.
  induction m as [m IH | m IH |]; cbn [SpecFloat.digits2_pos].
  - rewrite Pos2Z.inj_succ.
    replace (Z.succ (Zpos (SpecFloat.digits2_pos m)) - 1)%Z
      with (Z.succ (Zpos (SpecFloat.digits2_pos m) - 1))%Z by lia.
    rewrite !Z.pow_succ_r by lia. lia.
  - rewrite Pos2Z.inj_succ.
    replace (Z.succ (Zpos (SpecFloat.digits2_pos m)) - 1)%Z
      with (Z.succ (Zpos (SpecFloat.digits2_pos m) - 1))%Z by lia.
    rewrite !Z.pow_succ_r by lia. lia.
  - cbn. lia.
Qed.

(** The mantissa and exponent of a finite [float64] are canonical. *)
Lemma finite_canonical (y : PrimFloat.float) (s : bool) (m : positive)
  (e : Z) :
  FloatOps.Prim2SF y = SpecFloat.S754_finite s m e ->
  e = Z.max (Zpos (SpecFloat.digits2_pos m) + e - 53) (-1074).
Proof.
  intros H. pose proof (FloatAxioms.Prim2SF_valid y) as Hv.
  rewrite H in Hv. cbn [SpecFloat.valid_binary] in Hv.
  unfold SpecFloat.bounded, SpecFloat.canonical_mantissa in Hv.
  apply andb_prop in Hv. destruct Hv as [Hc _].
  apply Z.eqb_eq in Hc. symmetry. exact Hc.
Qed.

Lemma exponent_of_binade (m : positive) (k p : Z) :
  (0 <= k)%Z -> (0 <= p)%Z ->
  (2 ^ (52 + k) < Zpos m * 2 ^ p < 2 ^ (53 + k))%Z ->
  Zpos (SpecFloat.digits2_pos m) = (53 + k - p)%Z.
Proof.
  intros Hk Hp [Hl Hu].
  pose proof (digits2_pos_bounds m) as [Hd1 Hd2].
  set (d := Zpos (SpecFloat.digits2_pos m)) in *.
  assert (Hd : (0 < d)%Z) by (unfold d; lia).
  assert (H2p : (0 < 2 ^ p)%Z) by (apply Z.pow_pos_nonneg; lia).
  assert (H1 : (2 ^ (52 + k) < 2 ^ (d + p))%Z).
  { rewrite (Z.pow_add_r 2 d p) by lia. nia. }
  assert (H2 : (2 ^ (d - 1 + p) < 2 ^ (53 + k))%Z).
  { rewrite (Z.pow_add_r 2 (d - 1) p) by lia. nia. }
  apply Z.pow_lt_mono_r_iff in H1; [|lia|lia].
  apply Z.pow_lt_mono_r_iff in H2; [|lia|lia].
  lia.
Qed.

Lemma Rdiv_lt_cross (a b c d : R) :
  0 < b -> 0 < d -> a / b < c / d -> a * d < c * b.
Proof.
  intros Hb Hd H.
  replace (a * d) with (a / b * (b * d)) by (field; lra).
  replace (c * b) with (c / d * (b * d)) by (field; lra).
  apply Rmult_lt_compat_r; [nra | exact H].
Qed.

(** A [float64] strictly inside the binade whose unit in the last place
    is [2 ^ (- p)] is a multiple of that unit. *)
Lemma on_grid (y : PrimFloat.float) (p : Z) :
  (53 <= p <= 1074)%Z ->
  IZR (2 ^ 52) / IZR (2 ^ p) < binary64.to_R y < IZR (2 ^ 53) / IZR (2 ^ p) ->
  exists m : positive,
    FloatOps.Prim2SF y = SpecFloat.S754_finite false m (- p)
    /\ binary64.to_R y = IZR (Zpos m) / IZR (2 ^ p).
Proof.
  intros Hp [Hl Hu]. unfold binary64.to_R in *.
  assert (H2p : (0 < 2 ^ p)%Z) by (apply Z.pow_pos_nonneg; lia).
  assert (HRp : 0 < IZR (2 ^ p)) by (apply IZR_lt; exact H2p).
  assert (Hlow : 0 < IZR (2 ^ 52) / IZR (2 ^ p)).
  { apply Rdiv_lt_0_compat; [apply IZR_lt; reflexivity | exact HRp]. }
  assert (Hhigh : IZR (2 ^ 53) / IZR (2 ^ p) <= 1).
  { apply (Rmult_le_reg_r (IZR (2 ^ p))); [exact HRp|].
    unfold Rdiv. rewrite Rmult_assoc, Rinv_l, Rmult_1_r, Rmult_1_l by lra.
    apply IZR_le. apply Z.pow_le_mono_r; lia. }
  destruct (FloatOps.Prim2SF y) as [s | s | | s m e] eqn:Hy; try lra.
  pose proof (finite_canonical y s m e Hy) as Hcan.
  cbv zeta in Hl, Hu.
  destruct (e <? 0)%Z eqn:He.
  - apply Z.ltb_lt in He.
    assert (H2k : (0 < 2 ^ (- e))%Z) by (apply Z.pow_pos_nonneg; lia).
    assert (HRk : 0 < IZR (2 ^ (- e))) by (apply IZR_lt; exact H2k).
    assert (Hv : 0 < IZR (Zpos m) / IZR (2 ^ (- e))).
    { apply Rdiv_lt_0_compat; [apply IZR_lt; lia | exact HRk]. }
    destruct s; [lra|].
    apply Rdiv_lt_cross in Hl; [|exact HRp | exact HRk].
    apply Rdiv_lt_cross in Hu; [|exact HRk | exact HRp].
    rewrite <- !mult_IZR in Hl, Hu. apply lt_IZR in Hl, Hu.
    rewrite <- Z.pow_add_r in Hl, Hu by lia.
    pose proof (exponent_of_binade m (- e) p ltac:(lia) ltac:(lia)
                  (conj Hl Hu)) as Hd.
    assert (Hep : e = (- p)%Z) by lia.
    subst e. exists m. rewrite Z.opp_involutive. split; reflexivity.
  - apply Z.ltb_ge in He.
    assert (H1 : 1 <= IZR (Zpos m * 2 ^ e)).
    { apply IZR_le.
      assert (0 < 2 ^ e)%Z by (apply Z.pow_pos_nonneg; lia). nia. }
    destruct s; lra.
Qed.

(** Where the real number [r] is within half a unit in the last place of
    the [float64] [y0], well inside a binade, [y0] is the one [float64]
    nearest to [r]. *)
Lemma nearest_unique (r : R) (y0 : PrimFloat.float) (c : positive) (p : Z) :
  FloatOps.Prim2SF y0 = SpecFloat.S754_finite false c (- p) ->
  (53 <= p <= 1074)%Z ->
  (2 ^ 52 < Zpos c < 2 ^ 53 - 1)%Z ->
  Rabs (r - IZR (Zpos c) / IZR (2 ^ p)) < / 2 / IZR (2 ^ p) ->
  forall y : PrimFloat.float, binary64.nearest r y <-> y = y0.
Proof.
  intros Hy0 Hp Hc Hr.
  assert (H2p : (0 < 2 ^ p)%Z) by (apply Z.pow_pos_nonneg; lia).
  assert (HRp : 0 < IZR (2 ^ p)) by (apply IZR_lt; exact H2p).
  set (u := / IZR (2 ^ p)) in *.
  assert (Hu : 0 < u) by (apply Rinv_0_lt_compat; exact HRp).
  assert (Hgrid : forall k : Z, IZR k / IZR (2 ^ p) = IZR k * u)
    by (intros k; reflexivity).
  assert (Hto : binary64.to_R y0 = IZR (Zpos c) * u).
  { unfold binary64.to_R. rewrite Hy0. cbv zeta.
    replace (- p <? 0)%Z with true by (symmetry; apply Z.ltb_lt; lia).
    rewrite Z.opp_involutive. reflexivity. }
  assert (Hfin : binary64.finite y0 = true)
    by (unfold binary64.finite; rewrite Hy0; reflexivity).
  rewrite Hgrid in Hr.
  replace (/ 2 / IZR (2 ^ p)) with (u / 2) in Hr by (unfold u; field; lra).
  assert (Hr' := Rabs_def2 _ _ Hr).
  (* a float within one unit of [y0] is [y0] *)
  assert (Hnear : forall z : PrimFloat.float,
             Rabs (binary64.to_R z - IZR (Zpos c) * u) < u -> z = y0).
  { intros z Hz. apply Rabs_def2 in Hz.
    destruct (on_grid z p Hp) as (m & Hm & Hv).
    - rewrite !Hgrid.
      assert (IZR (2 ^ 52) + 1 <= IZR (Zpos c)).
      { rewrite <- plus_IZR. apply IZR_le. lia. }
      assert (IZR (Zpos c) + 1 <= IZR (2 ^ 53)).
      { rewrite <- plus_IZR. apply IZR_le. lia. }
      split; nra.
    - rewrite Hgrid in Hv. rewrite Hv in Hz.
      assert (Hmc : Zpos m = Zpos c).
      { assert (IZR (Zpos m - Zpos c) < IZR 1)
          by (rewrite minus_IZR; nra).
        assert (IZR (-1) < IZR (Zpos m - Zpos c))
          by (rewrite minus_IZR; nra).
        apply lt_IZR in H, H0. lia. }
      injection Hmc as ->.
      apply FloatAxioms.Prim2SF_inj. rewrite Hm, Hy0. reflexivity. }
  intros y. split.
  - intros [_ Hy]. specialize (Hy y0 Hfin). rewrite Hto in Hy.
    apply Hnear.
    apply Rabs_def1.
    + assert (H1 := Rle_abs (binary64.to_R y - r)).
      rewrite Rabs_minus_sym in H1.
      assert (H2 := Rle_abs (r - IZR (Zpos c) * u)). lra.
    + assert (H1 := Rle_abs (r - binary64.to_R y)).
      assert (H2 := Rle_abs (IZR (Zpos c) * u - r)).
      rewrite Rabs_minus_sym in H2. lra.
  - intros ->. split; [exact Hfin|]. intros z _. rewrite Hto.
    destruct (Rlt_dec (Rabs (binary64.to_R z - IZR (Zpos c) * u)) u)
      as [Hz | Hz].
    + rewrite (Hnear z Hz), Hto. lra.
    + apply Rnot_lt_le in Hz.
      assert (H1 : Rabs (binary64.to_R z - IZR (Zpos c) * u)
                   <= Rabs (binary64.to_R z - r)
                      + Rabs (r - IZR (Zpos c) * u)).
      { replace (binary64.to_R z - IZR (Zpos c) * u)
          with ((binary64.to_R z - r) + (r - IZR (Zpos c) * u)) by ring.
        apply Rabs_triang. }
      rewrite (Rabs_minus_sym (binary64.to_R z) r) in H1. lra.
Qed.

(** ** The zenith at noon in binary64 *)

Lemma INR_fact_S (n : nat) : INR (fact (S n)) = INR (S n) * INR (fact n).
Proof. rewrite fact_simpl, mult_INR. reflexivity. Qed.

(** Writes the factorials of a partial sum as integer literals. *)
Ltac factorials :=
  repeat rewrite INR_fact_S;
  change (INR (fact 0)) with 1;
  repeat match goal with
         | |- context [INR (S ?n)] =>
             let k := constr:(Z.of_nat (S n)) in
             let z := eval compute in k in
             replace (INR (S n)) with (IZR z)
               by (rewrite (INR_IZR_INZ (S n)); reflexivity)
         end.

(** The cosine and the sine between two partial sums of their series. *)
Lemma cos_series (a : R) :
  -2 <= a <= 2 ->
  1 - a ^ 2 / 2 + a ^ 4 / 24 - a ^ 6 / 720 + a ^ 8 / 40320
    - a ^ 10 / 3628800
  <= cos a
  <= 1 - a ^ 2 / 2 + a ^ 4 / 24 - a ^ 6 / 720 + a ^ 8 / 40320
     - a ^ 10 / 3628800 + a ^ 12 / 479001600.
Proof.
  intros [Hl Hu]. pose proof (pre_cos_bound a 2 Hl Hu) as H.
  unfold cos_approx, cos_term in H.
  cbn [sum_f_R0 Nat.mul Nat.add] in H.
  revert H. factorials. intros H.
  lra.
Qed.

Lemma sin_series (a : R) :
  0 <= a <= 4 ->
  a - a ^ 3 / 6 + a ^ 5 / 120 - a ^ 7 / 5040 + a ^ 9 / 362880
    - a ^ 11 / 39916800
  <= sin a
  <= a - a ^ 3 / 6 + a ^ 5 / 120 - a ^ 7 / 5040 + a ^ 9 / 362880
     - a ^ 11 / 39916800 + a ^ 13 / 6227020800.
Proof.
  intros [Hl Hu]. pose proof (pre_sin_bound a 2 Hl Hu) as H.
  unfold sin_approx, sin_term in H.
  cbn [sum_f_R0 Nat.mul Nat.add] in H.
  revert H. factorials. intros H.
  lra.
Qed.

Lemma to_R_radians_8 : binary64.to_R radians_8 = 0x11df46a2529d39 / 2 ^ 55.
Proof.
  unfold binary64.to_R.
  change (FloatOps.Prim2SF radians_8)
    with (SpecFloat.S754_finite false 0x11df46a2529d39 (-55)).
  cbv zeta. cbv [Z.ltb Z.compare].
  change (2 ^ (- -55))%Z with (36028797018963968)%Z. lra.
Qed.

(** The cosine of [radians_8] is within 0.43 units in the last place of
    [cos_radians_8], and its sine within 0.15 of [sin_radians_8]. *)
Lemma cos_radians_8_close :
  Rabs (cos (binary64.to_R radians_8) - 0x1fb046a930947a / 2 ^ 53)
  < 0.43 / 2 ^ 53.
Proof.
  rewrite to_R_radians_8.
  destruct (cos_series (0x11df46a2529d39 / 2 ^ 55)) as [Hl Hu]; [lra|].
  apply Rabs_def1; lra.
Qed.

Lemma sin_radians_8_close :
  Rabs (sin (binary64.to_R radians_8) - 0x11d06c968d9e19 / 2 ^ 55)
  < 0.15 / 2 ^ 55.
Proof.
  rewrite to_R_radians_8.
  destruct (sin_series (0x11df46a2529d39 / 2 ^ 55)) as [Hl Hu]; [lra|].
  apply Rabs_def1; lra.
Qed.

(** So a correctly rounded C library returns [cos_radians_8] and
    [sin_radians_8], and nothing else. *)
Lemma nearest_cos_radians_8 (y : PrimFloat.float) :
  binary64.nearest (cos (binary64.to_R radians_8)) y <-> y = cos_radians_8.
Proof.
  apply (nearest_unique _ _ 0x1fb046a930947a 53).
  - reflexivity.
  - lia.
  - split; reflexivity.
  - pose proof cos_radians_8_close as H.
    replace (IZR (2 ^ 53)) with (2 ^ 53) by (rewrite pow_IZR; reflexivity).
    eapply Rlt_trans; [exact H | lra].
Qed.

Lemma nearest_sin_radians_8 (y : PrimFloat.float) :
  binary64.nearest (sin (binary64.to_R radians_8)) y <-> y = sin_radians_8.
Proof.
  apply (nearest_unique _ _ 0x11d06c968d9e19 55).
  - reflexivity.
  - lia.
  - split; reflexivity.
  - pose proof sin_radians_8_close as H.
    replace (IZR (2 ^ 55)) with (2 ^ 55) by (rewrite pow_IZR; reflexivity).
    eapply Rlt_trans; [exact H | lra].
Qed.

(** C8: in binary64 the zenith at noon is NaN at latitude = declination =
    8 degrees, whatever C library computes the cosine and the sine
    correctly rounded there, has cos(0) = 1 and returns NaN for the arccos
    of a number above 1: the squares of the cosine and the sine add up to
    1 + 2^-52. *)
Theorem solar_zenith_analytical_noon_binary64 (np : binary64.libm) :
  binary64.nearest (cos (binary64.to_R radians_8))
    (binary64.cos np radians_8) ->
  binary64.nearest (sin (binary64.to_R radians_8))
    (binary64.sin np radians_8) ->
  binary64.cos np PrimFloat.zero = PrimFloat.one ->
  (forall a : PrimFloat.float,
     PrimFloat.ltb PrimFloat.one a = true ->
     PrimFloat.is_nan (binary64.arccos np a) = true) ->
  PrimFloat.is_nan
    (binary64.solar_zenith_analytical np radians_8 PrimFloat.zero radians_8)
  = true.
Proof.
  intros Hcos Hsin Hcos0 Harccos.
  apply nearest_cos_radians_8 in Hcos. apply nearest_sin_radians_8 in Hsin.
  unfold binary64.solar_zenith_analytical.
  rewrite Hcos, Hsin, Hcos0. apply Harccos.
  vm_compute. reflexivity.
Qed.

(** The theorem for the C library [libm_8_degrees]. *)
Lemma solar_zenith_analytical_noon_binary64_witness :
  PrimFloat.is_nan
    (binary64.solar_zenith_analytical libm_8_degrees radians_8
       PrimFloat.zero radians_8)
  = true.
Proof.
  apply (solar_zenith_analytical_noon_binary64 libm_8_degrees).
  - apply nearest_cos_radians_8. reflexivity.
  - apply nearest_sin_radians_8. reflexivity.
  - reflexivity.
  - intros a Ha. cbn [binary64.arccos libm_8_degrees]. rewrite Ha.
    reflexivity.
Defined.

(** ** int64 arithmetic *)

(** Wrap-around is the identity on values in range and respects
    congruence modulo 2^64, so a chain of wrapping operations whose exact
    result is in range returns that result. *)
Lemma wrap64_small (z : Z) : in_int64 z -> wrap64 z = z.
Proof. unfold in_int64, wrap64. intros H. rewrite Z.mod_small; lia. Qed.

Lemma wrap64_mod (z : Z) : (wrap64 z mod 2 ^ 64 = z mod 2 ^ 64)%Z.
Proof.
  unfold wrap64.
  rewrite Zminus_mod, Zmod_mod, <- Zminus_mod. f_equal. ring.
Qed.

Lemma wrap64_congr (a b : Z) :
  (a mod 2 ^ 64 = b mod 2 ^ 64)%Z -> wrap64 a = wrap64 b.
Proof.
  intros H. unfold wrap64. f_equal.
  rewrite (Zplus_mod a), (Zplus_mod b), H. reflexivity.
Qed.

Lemma int64_sub_wrap_l (a b : Z) : int64_sub (wrap64 a) b = wrap64 (a - b).
Proof.
  unfold int64_sub. apply wrap64_congr.
  rewrite Zminus_mod, wrap64_mod, <- Zminus_mod. reflexivity.
Qed.

Lemma hour_angle_int64 (t m nv : Z) :
  in_int64 (2 * t - m - nv) ->
  int64_sub (int64_sub (int64_mul 2 t) m) nv = (2 * t - m - nv)%Z.
Proof.
  intros H. unfold int64_mul. rewrite !int64_sub_wrap_l.
  apply wrap64_small, H.
Qed.

(** What [tz_localize] returns shows the given wall clock. *)
Lemma tz_localize_sound (z : TimeZone) (wall u : Z) :
  tz_localize z wall = Some u -> (u + utcoffset z u = wall)%Z.
Proof.
  unfold tz_localize.
  set (l := nodup _ _).
  intros H. assert (Hin : In u l).
  { destruct l as [|x [|y l']]; try discriminate.
    injection H as ->. left. reflexivity. }
  subst l. apply nodup_In, filter_In in Hin. destruct Hin as [_ Hin].
  apply Z.eqb_eq in Hin. exact Hin.
Qed.

Lemma tz_localize_fixed (o wall : Z) :
  tz_localize (fixed_offset o) wall = Some (wall - o)%Z.
Proof.
  unfold tz_localize, fixed_offset, utcoffset. cbn.
  replace (wall - o + o =? wall)%Z with true
    by (symmetry; apply Z.eqb_eq; ring).
  reflexivity.
Qed.

Lemma NS_PER_HR_finite : NS_PER_HR = of_R (1e9 * 3600).
Proof. reflexivity. Qed.

(** The converters on finite arguments, in real arithmetic. *)
Lemma hour_angle_finite (t m : Timestamp) (longitude equation_of_time : R) :
  normalize t = Some m ->
  in_int64 (2 * value t - value m - naive t) ->
  hour_angle t longitude equation_of_time
  = Some (of_R (15 * (IZR (2 * value t - value m - naive t) / (1e9 * 3600) - 12)
                + longitude + equation_of_time / 4)).
Proof.
  intros Hn Hr. unfold hour_angle. rewrite Hn.
  rewrite (hour_angle_int64 _ _ _ Hr).
  rewrite NS_PER_HR_finite. unfold of_int64.
  change (Some (IZR ?z)) with (of_R (IZR z)). finite.
  do 2 f_equal. field.
Qed.

Lemma _hour_angle_to_hours_finite (t : Timestamp) (ha longitude equation_of_time : R) :
  in_int64 (naive t - value t) ->
  _hour_angle_to_hours t ha longitude equation_of_time
  = of_R ((ha - longitude - equation_of_time / 4) / 15 + 12
          + IZR (naive t - value t) / (1e9 * 3600)).
Proof.
  intros Hr. unfold _hour_angle_to_hours, int64_sub.
  rewrite (wrap64_small _ Hr).
  rewrite NS_PER_HR_finite. unfold of_int64.
  change (Some (IZR ?z)) with (of_R (IZR z)). finite.
  f_equal. field.
Qed.

Lemma NS_PER_DAY_pos : (0 < NS_PER_DAY)%Z.
Proof. reflexivity. Qed.

Lemma _times_to_hours_after_local_midnight_finite (t : Timestamp) :
  _times_to_hours_after_local_midnight t = of_R (wall_clock_hours t).
Proof.
  unfold _times_to_hours_after_local_midnight, wall_clock_hours, int64_sub,
    normalize_naive.
  replace (naive t - (naive t - naive t mod NS_PER_DAY))%Z
    with (naive t mod NS_PER_DAY)%Z by ring.
  rewrite wrap64_small.
  - rewrite NS_PER_HR_finite. unfold of_int64.
    change (Some (IZR ?z)) with (of_R (IZR z)). finite.
    f_equal. field.
  - pose proof (Z.mod_pos_bound (naive t) NS_PER_DAY NS_PER_DAY_pos) as Hb.
    unfold in_int64. unfold NS_PER_DAY in *. lia.
Qed.

Lemma normalize_value (t m : Timestamp) :
  normalize t = Some m ->
  (value m + utcoffset (tz t) (value m) = normalize_naive (naive t))%Z
  /\ tz m = tz t.
Proof.
  unfold normalize. intros H.
  destruct (tz_localize (tz t) (normalize_naive (naive t))) as [u|] eqn:E;
    [|discriminate].
  injection H as <-. cbn. split; [|reflexivity].
  apply tz_localize_sound, E.
Qed.

(** The round trip through [hour_angle] and [_hour_angle_to_hours] returns
    the hours elapsed between the local midnight [times.normalize()] and
    [times].  They are the wall-clock hours of
    [_times_to_hours_after_local_midnight] when the UTC offset at that
    midnight is the offset at [times]. *)
Theorem hour_angle_round_trip (t m : Timestamp) (longitude equation_of_time : R) :
  normalize t = Some m ->
  (Z.abs (value t - value m) <= 2 * NS_PER_DAY)%Z ->
  (Z.abs (utcoffset (tz t) (value t)) <= NS_PER_DAY)%Z ->
  exists ha : float,
    hour_angle t longitude equation_of_time = Some ha
    /\ _hour_angle_to_hours t ha longitude equation_of_time
       = of_R (IZR (value t - value m) / (1e9 * 3600))
    /\ (utcoffset (tz t) (value m) = utcoffset (tz t) (value t) ->
        _hour_angle_to_hours t ha longitude equation_of_time
        = _times_to_hours_after_local_midnight t).
Proof.
  intros Hn Hm Ho.
  assert (Hr1 : in_int64 (2 * value t - value m - naive t)).
  { unfold in_int64, naive. unfold NS_PER_DAY in *. lia. }
  assert (Hr2 : in_int64 (naive t - value t)).
  { unfold in_int64, naive. unfold NS_PER_DAY in *. lia. }
  eexists. split; [apply (hour_angle_finite t m _ _ Hn Hr1)|].
  assert (E : _hour_angle_to_hours t
      (of_R (15 * (IZR (2 * value t - value m - naive t) / (1e9 * 3600) - 12)
          + longitude + equation_of_time / 4)) longitude equation_of_time
      = of_R (IZR (value t - value m) / (1e9 * 3600))).
  { rewrite (_hour_angle_to_hours_finite t _ _ _ Hr2). f_equal.
    replace (2 * value t - value m - naive t)%Z
      with (value t - value m - (naive t - value t))%Z by ring.
    rewrite !minus_IZR. field. }
  split; [exact E|].
  intros Hoff. rewrite E, _times_to_hours_after_local_midnight_finite.
  unfold wall_clock_hours. do 3 f_equal.
  destruct (normalize_value t m Hn) as [Hv _].
  unfold normalize_naive in Hv. unfold naive in *. lia.
Qed.

(** In a fixed-offset zone [normalize] never raises and the round trip
    returns the wall-clock hours. *)
Lemma normalize_fixed (o u : Z) :
  normalize {| value := u; tz := fixed_offset o |}
  = Some {| value := normalize_naive (u + o) - o; tz := fixed_offset o |}.
Proof.
  unfold normalize. cbn [tz value]. rewrite tz_localize_fixed. reflexivity.
Qed.

Corollary hour_angle_round_trip_fixed (o u : Z) (longitude equation_of_time : R) :
  (Z.abs o <= NS_PER_DAY)%Z ->
  let t := {| value := u; tz := fixed_offset o |} in
  exists ha : float,
    hour_angle t longitude equation_of_time = Some ha
    /\ _hour_angle_to_hours t ha longitude equation_of_time
       = _times_to_hours_after_local_midnight t.
Proof.
  intros Ho t. subst t.
  pose proof (Z.mod_pos_bound (u + o) NS_PER_DAY NS_PER_DAY_pos) as Hb.
  destruct (hour_angle_round_trip _ _ longitude equation_of_time
              (normalize_fixed o u)) as [ha [H1 [_ H3]]].
  - cbn [value]. unfold normalize_naive. unfold NS_PER_DAY in *. lia.
  - exact Ho.
  - exists ha. split; [exact H1|]. apply H3. reflexivity.
Qed.

(** The round trip on 2023-06-21 11:00 at UTC-7. *)
Lemma hour_angle_round_trip_witness :
  exists ha : float,
    hour_angle golden_solstice (-105) (-1.5) = Some ha
    /\ _hour_angle_to_hours golden_solstice ha (-105) (-1.5)
       = of_R (IZR (value golden_solstice - 1687330800000000000)
               / (1e9 * 3600))
    /\ (utcoffset (tz golden_solstice) 1687330800000000000
        = utcoffset (tz golden_solstice) (value golden_solstice) ->
        _hour_angle_to_hours golden_solstice ha (-105) (-1.5)
        = _times_to_hours_after_local_midnight golden_solstice).
Proof.
  apply (hour_angle_round_trip golden_solstice
           {| value := 1687330800000000000; tz := fixed_offset (-7 * HOUR) |}
           (-105) (-1.5)).
  - vm_compute. reflexivity.
  - vm_compute. discriminate.
  - vm_compute. discriminate.
Defined.

(** C1, at a failing input: on 2023-03-12 12:00 US/Eastern, the day the
    clocks go forward, the round trip returns 11 hours, and
    [_times_to_hours_after_local_midnight] returns 12 hours. *)
Theorem hour_angle_round_trip_dst :
  exists ha : float,
    hour_angle new_york_noon (-74) (-10) = Some ha
    /\ _hour_angle_to_hours new_york_noon ha (-74) (-10) = of_R 11
    /\ _times_to_hours_after_local_midnight new_york_noon = of_R 12
    /\ _hour_angle_to_hours new_york_noon ha (-74) (-10)
       <> _times_to_hours_after_local_midnight new_york_noon.
Proof.
  set (m := {| value := 1678597200000000000; tz := US_Eastern |}).
  assert (Hn : normalize new_york_noon = Some m) by (vm_compute; reflexivity).
  destruct (hour_angle_round_trip new_york_noon m (-74) (-10) Hn)
    as [ha [H1 [H2 _]]].
  { vm_compute. discriminate. }
  { vm_compute. discriminate. }
  exists ha. split; [exact H1|].
  assert (E11 : _hour_angle_to_hours new_york_noon ha (-74) (-10) = of_R 11).
  { rewrite H2. f_equal.
    change (value new_york_noon - value m)%Z with 39600000000000%Z. lra. }
  assert (E12 : _times_to_hours_after_local_midnight new_york_noon = of_R 12).
  { rewrite _times_to_hours_after_local_midnight_finite. f_equal.
    unfold wall_clock_hours.
    change (naive new_york_noon mod NS_PER_DAY)%Z with 43200000000000%Z. lra. }
  split; [exact E11|]. split; [exact E12|].
  rewrite E11, E12. intros H. apply of_R_inj in H. lra.
Qed.

(** When no offset change lies between local midnight and the timestamp,
    [hour_angle] is the formula of the specification. *)
Lemma hour_angle_settled (t m : Timestamp) (longitude equation_of_time : R) :
  normalize t = Some m ->
  utcoffset (tz t) (value m) = utcoffset (tz t) (value t) ->
  (Z.abs (utcoffset (tz t) (value t)) <= NS_PER_DAY)%Z ->
  hour_angle t longitude equation_of_time
  = Some (of_R (hour_angle_formula t longitude equation_of_time)).
Proof.
  intros Hn Hoff Ho.
  destruct (normalize_value t m Hn) as [Hv _].
  pose proof (Z.mod_pos_bound (naive t) NS_PER_DAY NS_PER_DAY_pos) as Hb.
  assert (Hz : (2 * value t - value m - naive t
                = naive t mod NS_PER_DAY - utcoffset (tz t) (value t))%Z).
  { unfold normalize_naive in Hv. unfold naive in *. lia. }
  rewrite (hour_angle_finite t m _ _ Hn).
  - rewrite Hz. unfold hour_angle_formula, wall_clock_hours, utc_offset_hours.
    do 2 f_equal. rewrite minus_IZR. field.
  - rewrite Hz. unfold in_int64. unfold NS_PER_DAY in *. lia.
Qed.

(** The formula depends on the zone only through the local date. *)
Lemma hour_angle_formula_instant (t : Timestamp) (longitude equation_of_time : R) :
  hour_angle_formula t longitude equation_of_time
  = 15 * (IZR (value t) / (1e9 * 3600) - 24 * IZR (local_date t) - 12)
    + longitude + equation_of_time / 4.
Proof.
  unfold hour_angle_formula, wall_clock_hours, utc_offset_hours, local_date.
  rewrite Z.mod_eq by (unfold NS_PER_DAY; lia).
  replace (utcoffset (tz t) (value t)) with (naive t - value t)%Z
    by (unfold naive; ring).
  rewrite !minus_IZR, mult_IZR. unfold NS_PER_DAY. field.
Qed.

(** C2, as amended: for a timestamp whose UTC offset is the one in force
    at its local midnight, [hour_angle] is 15 (local-clock hours - UTC
    offset hours - 12) + longitude + eot/4; two such representations of one
    instant give hour angles that differ by 360 degrees times the
    difference of their local calendar days, hence the same hour angle
    when the local dates agree. *)
Theorem hour_angle_same_instant
  (t1 t2 m1 m2 : Timestamp) (longitude equation_of_time : R) :
  value t1 = value t2 ->
  normalize t1 = Some m1 ->
  normalize t2 = Some m2 ->
  utcoffset (tz t1) (value m1) = utcoffset (tz t1) (value t1) ->
  utcoffset (tz t2) (value m2) = utcoffset (tz t2) (value t2) ->
  (Z.abs (utcoffset (tz t1) (value t1)) <= NS_PER_DAY)%Z ->
  (Z.abs (utcoffset (tz t2) (value t2)) <= NS_PER_DAY)%Z ->
  hour_angle t1 longitude equation_of_time
  = Some (of_R (hour_angle_formula t1 longitude equation_of_time))
  /\ hour_angle t2 longitude equation_of_time
     = Some (of_R (hour_angle_formula t2 longitude equation_of_time))
  /\ hour_angle_formula t1 longitude equation_of_time
     - hour_angle_formula t2 longitude equation_of_time
     = 360 * IZR (local_date t2 - local_date t1)
  /\ (local_date t1 = local_date t2 ->
      hour_angle t1 longitude equation_of_time
      = hour_angle t2 longitude equation_of_time).
Proof.
  intros Hv Hn1 Hn2 Hs1 Hs2 Ho1 Ho2.
  pose proof (hour_angle_settled t1 m1 longitude equation_of_time Hn1 Hs1 Ho1)
    as E1.
  pose proof (hour_angle_settled t2 m2 longitude equation_of_time Hn2 Hs2 Ho2)
    as E2.
  assert (D : hour_angle_formula t1 longitude equation_of_time
              - hour_angle_formula t2 longitude equation_of_time
              = 360 * IZR (local_date t2 - local_date t1)).
  { rewrite !hour_angle_formula_instant, Hv, minus_IZR. field. }
  repeat split; try assumption.
  intros Hd. rewrite E1, E2. do 2 f_equal.
  rewrite Hd, Z.sub_diag in D. lra.
Qed.

(** C2, counterexample: 2023-06-21 02:00 UTC is 21:00 of the day before
    at UTC-5; the hour angle is -150 in UTC and 210 at UTC-5. *)
Lemma hour_angle_same_instant_differs :
  value early_utc = value early_est
  /\ hour_angle early_utc 0 0 = Some (of_R (-150))
  /\ hour_angle early_est 0 0 = Some (of_R 210)
  /\ hour_angle early_utc 0 0 <> hour_angle early_est 0 0.
Proof.
  assert (E1 : hour_angle early_utc 0 0 = Some (of_R (-150))).
  { rewrite (hour_angle_finite early_utc
               {| value := 1687305600000000000; tz := UTC |}).
    - change (2 * value early_utc - _ - naive early_utc)%Z
        with 7200000000000%Z. do 2 f_equal. lra.
    - vm_compute. reflexivity.
    - vm_compute. split; [discriminate | reflexivity]. }
  assert (E2 : hour_angle early_est 0 0 = Some (of_R 210)).
  { rewrite (hour_angle_finite early_est
               {| value := 1687237200000000000;
                  tz := fixed_offset (-5 * HOUR) |}).
    - change (2 * value early_est - _ - naive early_est)%Z
        with 93600000000000%Z. do 2 f_equal. lra.
    - vm_compute. reflexivity.
    - vm_compute. split; [discriminate | reflexivity]. }
  split; [reflexivity|]. split; [exact E1|]. split; [exact E2|].
  rewrite E1, E2. intros H. injection H as H. lra.
Qed.

(** The theorem on 2023-06-21 18:00 UTC, as UTC-7 and as UTC. *)
Lemma hour_angle_same_instant_witness :
  hour_angle golden_solstice (-105) (-1.5)
  = Some (of_R (hour_angle_formula golden_solstice (-105) (-1.5)))
  /\ hour_angle late_utc (-105) (-1.5)
     = Some (of_R (hour_angle_formula late_utc (-105) (-1.5)))
  /\ hour_angle_formula golden_solstice (-105) (-1.5)
     - hour_angle_formula late_utc (-105) (-1.5)
     = 360 * IZR (local_date late_utc - local_date golden_solstice)
  /\ (local_date golden_solstice = local_date late_utc ->
      hour_angle golden_solstice (-105) (-1.5)
      = hour_angle late_utc (-105) (-1.5)).
Proof.
  apply (hour_angle_same_instant golden_solstice late_utc
           {| value := 1687330800000000000; tz := fixed_offset (-7 * HOUR) |}
           {| value := 1687305600000000000; tz := UTC |}).
  - reflexivity.
  - vm_compute. reflexivity.
  - vm_compute. reflexivity.
  - reflexivity.
  - reflexivity.
  - vm_compute. discriminate.
  - vm_compute. discriminate.
Defined.

(** ** Sunrise and sunset in the polar night *)

Lemma cos_pos_neq_0 (x : R) : - (PI / 2) < x < PI / 2 -> cos x <> 0.
Proof.
  intros [H1 H2]. pose proof (cos_gt_0 x H1 H2). lra.
Qed.

Lemma tan_finite (x : R) :
  cos x <> 0 -> np.tan (of_R x) = of_R (tan x).
Proof.
  intros H. unfold np.tan, of_R.
  destruct (Req_dec_T (cos x) 0); [contradiction | reflexivity].
Qed.

Lemma radians_finite (x : R) : np.radians (of_R x) = of_R (x * (PI / 180)).
Proof.
  unfold np.radians. finite. reflexivity.
Qed.

(** Two angles of the first quadrant that add up to more than a right
    angle have tangents whose product exceeds 1. *)
Lemma tan_mul_gt_1 (a b : R) :
  0 < a < PI / 2 -> 0 < b < PI / 2 -> PI / 2 < a + b -> 1 < tan a * tan b.
Proof.
  intros [Ha0 Ha1] [Hb0 Hb1] Hab.
  pose proof (tan_gt_0 a Ha0 Ha1) as Hta.
  assert (Hinc : tan (PI / 2 - a) < tan b).
  { apply tan_increasing; lra. }
  assert (Hco : tan (PI / 2 - a) = / tan a).
  { unfold tan. rewrite sin_shift, cos_shift.
    pose proof (sin_gt_0 a Ha0 ltac:(lra)) as Hs.
    pose proof (cos_gt_0 a ltac:(lra) Ha1) as Hc.
    field. lra. }
  rewrite Hco in Hinc.
  apply (Rmult_lt_compat_l (tan a)) in Hinc; [|exact Hta].
  rewrite Rinv_r in Hinc by lra. exact Hinc.
Qed.

(** Polar day or night: the argument of the arccos leaves [-1, 1] and the
    sunset hour angle is NaN. *)
Lemma sunset_angle_polar (latitude declination : R) :
  cos declination <> 0 ->
  cos (latitude * (PI / 180)) <> 0 ->
  - tan declination * tan (latitude * (PI / 180)) < -1
  \/ 1 < - tan declination * tan (latitude * (PI / 180)) ->
  sunset_angle latitude declination = nan.
Proof.
  intros Hd Hl Hout. unfold sunset_angle.
  rewrite radians_finite, !tan_finite by assumption.
  change (- of_R (tan declination))%fl with (of_R (- tan declination)).
  finite. rewrite (arccos_out_of_range _ Hout). reflexivity.
Qed.

(** A NaN hour angle gives NaN hours. *)
Lemma _hour_angle_to_hours_nan
  (times : Timestamp) (longitude equation_of_time : float) :
  _hour_angle_to_hours times nan longitude equation_of_time = nan.
Proof. reflexivity. Qed.

Lemma _local_times_from_hours_since_midnight_nan
  (nan_cast : Z) (times : Timestamp) :
  _local_times_from_hours_since_midnight nan_cast times nan
  = DatetimeIndex (int64_add (normalize_naive (naive times)) nan_cast)
                  (tz times).
Proof. reflexivity. Qed.

Lemma DatetimeIndex_NaT (wall : Z) (z : TimeZone) :
  DatetimeIndex wall z = Some NaT <-> wall = INT64_MIN.
Proof.
  unfold DatetimeIndex. destruct (wall =? INT64_MIN)%Z eqn:E.
  - apply Z.eqb_eq in E. tauto.
  - apply Z.eqb_neq in E.
    destruct (tz_localize z wall); split; intros H;
      try discriminate; contradiction.
Qed.

(** Whatever integer the platform makes of NaN, it marks at most one
    local midnight as missing: of two entries on different days, one gets
    an ordinary timestamp. *)
Lemma nan_hours_not_both_NaT (nan_cast : Z) (t1 t2 : Timestamp) :
  normalize_naive (naive t1) <> normalize_naive (naive t2) ->
  (Z.abs (normalize_naive (naive t1) - normalize_naive (naive t2)) < 2 ^ 64)%Z ->
  ~ (_local_times_from_hours_since_midnight nan_cast t1 nan = Some NaT
     /\ _local_times_from_hours_since_midnight nan_cast t2 nan = Some NaT).
Proof.
  intros Hne Hclose [H1 H2].
  rewrite _local_times_from_hours_since_midnight_nan in H1, H2.
  apply DatetimeIndex_NaT in H1. apply DatetimeIndex_NaT in H2.
  unfold int64_add in *.
  assert (E : ((normalize_naive (naive t1) + nan_cast) mod 2 ^ 64
               = (normalize_naive (naive t2) + nan_cast) mod 2 ^ 64)%Z).
  { rewrite <- (wrap64_mod (_ + nan_cast)), H1, <- H2, wrap64_mod.
    reflexivity. }
  set (m1 := normalize_naive (naive t1)) in *.
  set (m2 := normalize_naive (naive t2)) in *.
  clearbody m1 m2.
  rewrite (Z.mod_eq (m1 + nan_cast)), (Z.mod_eq (m2 + nan_cast)) in E by lia.
  lia.
Qed.

Lemma Rtrunc_IZR (z : Z) : Rtrunc (IZR z) = z.
Proof.
  unfold Rtrunc. destruct (Rle_dec 0 (IZR z)).
  - symmetry. apply Int_part_spec. lra.
  - rewrite <- opp_IZR. rewrite <- (Int_part_spec (IZR (- z)) (- z)%Z) by lra.
    ring.
Qed.

Lemma astype_int64_IZR (nan_cast z : Z) :
  in_int64 z -> astype_int64 nan_cast (of_R (IZR z)) = z.
Proof.
  intros [H1 H2]. unfold astype_int64, of_R. rewrite Rtrunc_IZR.
  unfold INT64_MIN.
  replace (- 2 ^ 63 <=? z)%Z with true by (symmetry; apply Z.leb_le; lia).
  replace (z <? 2 ^ 63)%Z with true by (symmetry; apply Z.ltb_lt; lia).
  reflexivity.
Qed.

(** In the polar day or night the sunrise and sunset hours are NaN. *)
Lemma polar_hours_nan (times : Timestamp)
  (latitude longitude declination equation_of_time : R) :
  cos declination <> 0 ->
  cos (latitude * (PI / 180)) <> 0 ->
  - tan declination * tan (latitude * (PI / 180)) < -1
  \/ 1 < - tan declination * tan (latitude * (PI / 180)) ->
  sunrise_hour times latitude longitude declination equation_of_time = nan
  /\ sunset_hour times latitude longitude declination equation_of_time = nan.
Proof.
  intros Hd Hl Hout. unfold sunrise_hour, sunset_hour, sunrise_angle.
  rewrite (sunset_angle_polar _ _ Hd Hl Hout). split; reflexivity.
Qed.

(** At 75 N the solstice declination puts the argument of the arccos
    above 1. *)
Lemma winter_polar_night :
  sunset_angle 75 winter_declination = nan.
Proof.
  assert (Hpi := PI_RGT_0).
  assert (Hd : - (PI / 2) < winter_declination < PI / 2)
    by (unfold winter_declination; lra).
  assert (Hl : - (PI / 2) < 75 * (PI / 180) < PI / 2) by lra.
  apply sunset_angle_polar.
  - apply cos_pos_neq_0, Hd.
  - apply cos_pos_neq_0, Hl.
  - right. unfold winter_declination. rewrite tan_neg, Ropp_involutive.
    apply tan_mul_gt_1; lra.
Qed.

(** C7, at a failing input: latitude 75 N on 2023-12-21 12:00 UTC with the
    solstice declination, on a platform whose cast of NaN to [int64] is
    [INT64_MIN].  The sunset hour angle and the sunrise and sunset hours
    are NaN, and the returned sunrise and sunset are the local midnight
    minus 2^63 nanoseconds, an instant of the year 1731, not [NaT]. *)
Theorem polar_night_sunrise_sunset :
  sunset_angle 75 winter_declination = nan
  /\ sunrise_hour winter_noon 75 0 winter_declination 0 = nan
  /\ sunset_hour winter_noon 75 0 winter_declination 0 = nan
  /\ sun_rise_set_transit_geometric INT64_MIN winter_noon
       75 0 winter_declination 0
     = Some (Instant (-7520255236854775808),
             Instant (-7520255236854775808),
             Instant 1703160000000000000).
Proof.
  pose proof winter_polar_night as Hs.
  assert (Hrise : sunrise_hour winter_noon 75 0 winter_declination 0 = nan).
  { unfold sunrise_hour, sunrise_angle. rewrite Hs. reflexivity. }
  assert (Hset : sunset_hour winter_noon 75 0 winter_declination 0 = nan).
  { unfold sunset_hour. rewrite Hs. reflexivity. }
  repeat split; try assumption.
  unfold sun_rise_set_transit_geometric. rewrite Hrise, Hset.
  rewrite _local_times_from_hours_since_midnight_nan.
  assert (Ht : transit_hour winter_noon 0 0 = of_R 12).
  { unfold transit_hour.
    rewrite _hour_angle_to_hours_finite
      by (vm_compute; split; [discriminate | reflexivity]).
    change (naive winter_noon - value winter_noon)%Z with 0%Z.
    f_equal. lra. }
  rewrite Ht. unfold _local_times_from_hours_since_midnight.
  rewrite NS_PER_HR_finite. finite.
  replace (12 * (1e9 * 3600)) with (IZR 43200000000000) by lra.
  rewrite astype_int64_IZR
    by (vm_compute; split; [discriminate | reflexivity]).
  vm_compute. reflexivity.
Qed.

(** ** The Kepler loop *)

(** The sine is 1-Lipschitz, so the update is a contraction of factor
    [|e|] in its last argument. *)
Lemma Rabs_sin_le (x : R) : Rabs (sin x) <= Rabs x.
Proof.
  assert (Hpos : forall y, 0 < y -> Rabs (sin y) <= y).
  { intros y Hy. apply Rabs_le. split.
    - destruct (Rlt_dec y 1) as [H1 | H1].
      + pose proof PI2_1.
        pose proof (sin_gt_0 y Hy ltac:(lra)). lra.
      + pose proof (SIN_bound y). lra.
    - pose proof (sin_lt_x y Hy). lra. }
  destruct (Rtotal_order x 0) as [H | [H | H]].
  - rewrite (Rabs_left x H). rewrite <- (Rabs_Ropp (sin x)), <- sin_neg.
    apply Hpos. lra.
  - subst x. rewrite sin_0, Rabs_R0. lra.
  - rewrite (Rabs_pos_eq x) by lra. apply Hpos, H.
Qed.

Lemma sin_lipschitz (p q : R) : Rabs (sin p - sin q) <= Rabs (p - q).
Proof.
  rewrite form4, !Rabs_mult.
  pose proof (COS_bound ((p + q) / 2)) as Hc.
  assert (Hc' : Rabs (cos ((p + q) / 2)) <= 1) by (apply Rabs_le; lra).
  pose proof (Rabs_sin_le ((p - q) / 2)) as Hs.
  pose proof (Rabs_pos (sin ((p - q) / 2))) as Hs0.
  pose proof (Rabs_pos (cos ((p + q) / 2))) as Hc0.
  replace (Rabs ((p - q) / 2)) with (Rabs (p - q) / 2) in Hs.
  - rewrite (Rabs_pos_eq 2) by lra. nra.
  - unfold Rdiv. rewrite Rabs_mult. f_equal. rewrite Rabs_pos_eq; lra.
Qed.

Lemma kepler_next_contracts (m e x y : R) :
  Rabs (kepler_next m e x - kepler_next m e y) <= Rabs e * Rabs (x - y).
Proof.
  unfold kepler_next.
  replace (m + e * (180 / PI) * sin (x * (PI / 180))
           - (m + e * (180 / PI) * sin (y * (PI / 180))))
    with (e * ((180 / PI) * (sin (x * (PI / 180)) - sin (y * (PI / 180)))))
    by ring.
  rewrite Rabs_mult. apply Rmult_le_compat_l; [apply Rabs_pos|].
  rewrite Rabs_mult.
  pose proof PI_RGT_0 as Hpi.
  assert (H180 : 0 < 180 / PI) by (apply Rdiv_lt_0_compat; lra).
  rewrite (Rabs_pos_eq (180 / PI)) by lra.
  pose proof (sin_lipschitz (x * (PI / 180)) (y * (PI / 180))) as Hl.
  replace (x * (PI / 180) - y * (PI / 180)) with ((x - y) * (PI / 180)) in Hl
    by ring.
  rewrite Rabs_mult, (Rabs_pos_eq (PI / 180)) in Hl by lra.
  apply (Rmult_le_compat_l (180 / PI)) in Hl; [|lra].
  replace (180 / PI * (Rabs (x - y) * (PI / 180))) with (Rabs (x - y)) in Hl
    by (field; lra).
  exact Hl.
Qed.

Lemma kepler_next_first (m e : R) :
  Rabs (kepler_next m e m - m) <= Rabs e * (180 / PI).
Proof.
  unfold kepler_next.
  replace (m + e * (180 / PI) * sin (m * (PI / 180)) - m)
    with (e * ((180 / PI) * sin (m * (PI / 180)))) by ring.
  rewrite Rabs_mult. apply Rmult_le_compat_l; [apply Rabs_pos|].
  rewrite Rabs_mult.
  pose proof PI_RGT_0 as Hpi.
  assert (H180 : 0 < 180 / PI) by (apply Rdiv_lt_0_compat; lra).
  rewrite (Rabs_pos_eq (180 / PI)) by lra.
  pose proof (SIN_bound (m * (PI / 180))) as Hs.
  assert (Rabs (sin (m * (PI / 180))) <= 1) by (apply Rabs_le; lra).
  nra.
Qed.

Lemma zip_with_map {A : Type} (f : float -> float -> float)
  (g h : A -> float) (l : list A) :
  zip_with f (map g l) (map h l) = map (fun a => f (g a) (h a)) l.
Proof.
  induction l as [|a l IH]; cbn; [reflexivity|]. rewrite IH. reflexivity.
Qed.

Lemma degrees_finite (x : R) : np.degrees (of_R x) = of_R (x * (180 / PI)).
Proof.
  unfold np.degrees. rewrite fdiv_finite by apply PI_neq0. reflexivity.
Qed.

(** The update on arrays that hold finite values, row by row. *)
Lemma kepler_update_rows (rows : list kepler_row) :
  kepler_update (map (fun r => of_R (row_m r)) rows)
                (map (fun r => of_R (row_e r)) rows)
                (map (fun r => of_R (row_y r)) rows)
  = map (fun r => of_R (row_next r)) rows.
Proof.
  unfold kepler_update. rewrite !map_map, !zip_with_map.
  apply map_ext. intros r.
  rewrite degrees_finite, radians_finite. reflexivity.
Qed.

(** [np.max] of an array whose elements are NaN or at most [B] is NaN or
    at most [B], and the loop test fails on such a value when [B] is within
    tolerance. *)
Lemma maximum_bounded (B : R) (x y : float) :
  bounded B x -> bounded B y -> bounded B (np.maximum x y).
Proof.
  destruct x as [a|], y as [b|]; cbn; trivial.
  intros Ha Hb. apply Rmax_lub; assumption.
Qed.

Lemma fold_maximum_bounded (B : R) (xs : list float) :
  Forall (bounded B) xs ->
  forall x, bounded B x -> bounded B (fold_left np.maximum xs x).
Proof.
  induction 1 as [|y ys Hy _ IH]; intros x Hx; cbn; [exact Hx|].
  apply IH, maximum_bounded; assumption.
Qed.

Lemma max_bounded (B : R) (xs : list float) :
  xs <> [] -> Forall (bounded B) xs ->
  exists change, np.max xs = Some change /\ bounded B change.
Proof.
  intros Hne Hall. destruct xs as [|x xs]; [contradiction|].
  inversion Hall as [|? ? Hx Hxs]; subst.
  eexists. split; [reflexivity|]. apply fold_maximum_bounded; assumption.
Qed.

Lemma fgt_bounded (B t : R) (x : float) :
  bounded B x -> B <= t -> (x >? of_R t)%fl = false.
Proof.
  destruct x as [a|]; cbn; [|reflexivity].
  intros Ha Ht. apply Rltb_false. lra.
Qed.

(** One unfolding of the loop, whatever the fuel. *)
Lemma kepler_while_eq (fuel : nat) (MeanAnom Eccen EccenAnom : ndarray)
  (E : operand) (n : nat) :
  kepler_while fuel MeanAnom Eccen EccenAnom E n
  = match np.max (map fabs (broadcast_sub EccenAnom E)) with
    | None => Raised
    | Some change =>
        if (change >? 0.0001)%fl then
          match fuel with
          | O => OutOfFuel
          | S fuel' =>
              kepler_while fuel' MeanAnom Eccen
                (kepler_update MeanAnom Eccen EccenAnom)
                (array EccenAnom) (S n)
          end
        else Returned (EccenAnom, n)
    end.
Proof. destruct fuel; reflexivity. Qed.


(** A NaN element makes [np.max] NaN. *)
Lemma fold_maximum_nan (xs : list float) :
  fold_left np.maximum xs nan = nan.
Proof.
  induction xs as [|y ys IH]; cbn; [reflexivity | exact IH].
Qed.

Lemma fold_maximum_has_nan (xs : list float) (x : float) :
  In nan xs -> fold_left np.maximum xs x = nan.
Proof.
  revert x. induction xs as [|y ys IH]; intros x Hin; [contradiction|].
  cbn. destruct Hin as [-> | Hin].
  - destruct x; apply fold_maximum_nan.
  - apply IH, Hin.
Qed.

Lemma max_has_nan (xs : list float) :
  In nan xs -> np.max xs = Some nan.
Proof.
  destruct xs as [|x xs]; [contradiction|].
  intros [-> | Hin]; cbn; f_equal.
  - apply fold_maximum_nan.
  - apply fold_maximum_has_nan, Hin.
Qed.


Lemma rows_of_arrays (ms es : list R) :
  length es = length ms ->
  exists rows : list kepler_row,
    map row_m rows = ms /\ map row_e rows = es /\ map row_y rows = ms.
Proof.
  revert es. induction ms as [|m ms IH]; intros [|e es] Hlen;
    try discriminate.
  - exists []. repeat split.
  - destruct (IH es) as [rows [Hm [He Hy]]]; [cbn in Hlen; lia|].
    exists ({| row_m := m; row_e := e; row_y := m |} :: rows).
    cbn. rewrite Hm, He, Hy. repeat split.
Qed.



(** With eccentricity 0 the update returns the mean anomaly, NaN elements
    included. *)
Lemma kepler_update_circular (MeanAnom Eccen : ndarray) :
  length Eccen = length MeanAnom ->
  Forall (fun e => e = of_R 0) Eccen ->
  kepler_update MeanAnom Eccen MeanAnom = MeanAnom.
Proof.
  unfold kepler_update.
  revert Eccen. induction MeanAnom as [|x xs IH]; intros [|e es] Hlen Hzero;
    try discriminate; [reflexivity|].
  inversion Hzero as [|? ? He Hes]; subst. cbn [map zip_with].
  rewrite IH by (try assumption; cbn in Hlen; lia).
  f_equal. rewrite degrees_finite. destruct x as [m|]; [|reflexivity].
  change (Some m) with (of_R m). rewrite radians_finite.
  cbn [np.sin lift1 of_R]. change (Some ?a) with (of_R a). finite.
  f_equal. ring.
Qed.

Lemma no_change_bounded (xs : ndarray) :
  Forall (bounded 0) (map fabs (zip_with fsub xs xs)).
Proof.
  induction xs as [|x xs IH]; cbn [zip_with map]; constructor; [|exact IH].
  destruct x as [a|]; cbn; [|trivial].
  replace (a - a) with 0 by ring. rewrite Rabs_R0. lra.
Qed.

(** C3: with every eccentricity exactly 0 the Kepler loop returns after at
    most one pass, and the eccentric anomaly it returns is the mean
    anomaly array itself. *)
Theorem kepler_circular_orbit (fuel : nat) (MeanAnom Eccen : ndarray) :
  MeanAnom <> [] ->
  length Eccen = length MeanAnom ->
  Forall (fun e => e = of_R 0) Eccen ->
  (1 <= fuel)%nat ->
  exists n : nat,
    ephemeris_EccenAnom fuel MeanAnom Eccen = Returned (MeanAnom, n)
    /\ (n <= 1)%nat.
Proof.
  intros Hne Hlen Hzero Hfuel.
  unfold ephemeris_EccenAnom. rewrite kepler_while_eq.
  destruct (np.max _) as [change|] eqn:Hmax.
  2: { destruct MeanAnom; [contradiction | discriminate]. }
  destruct (change >? 0.0001)%fl.
  2: { exists 0%nat. split; [reflexivity | lia]. }
  destruct fuel as [|fuel]; [lia|].
  rewrite (kepler_update_circular _ _ Hlen Hzero).
  rewrite kepler_while_eq. cbn [broadcast_sub].
  destruct (max_bounded 0 (map fabs (zip_with fsub MeanAnom MeanAnom)))
    as [change' [-> Hchange]].
  - destruct MeanAnom; [contradiction | discriminate].
  - apply no_change_bounded.
  - rewrite (fgt_bounded 0 _ _ Hchange) by lra.
    exists 1%nat. split; [reflexivity | lia].
Qed.

(** The circular orbit on three elements, one of them NaN. *)
Lemma kepler_circular_orbit_witness :
  exists n : nat,
    ephemeris_EccenAnom 1 [of_R 100; nan; of_R 359] [of_R 0; of_R 0; of_R 0]
    = Returned ([of_R 100; nan; of_R 359], n)
    /\ (n <= 1)%nat.
Proof.
  apply (kepler_circular_orbit 1 [of_R 100; nan; of_R 359]
           [of_R 0; of_R 0; of_R 0]).
  - discriminate.
  - reflexivity.
  - repeat constructor.
  - lia.
Defined.

(** The eccentricity the source computes stays between 0 and 0.02 for
    every date within four centuries of the epoch. *)
Lemma Eccen_of_small (T1 : R) :
  -4 <= T1 <= 4 ->
  exists r : R, Eccen_of T1 = of_R r /\ 0 < r < 0.02.
Proof.
  intros H. unfold Eccen_of. rewrite fpow_finite. finite.
  eexists. split; [reflexivity|]. nra.
Qed.

(** ** Refraction *)

(** Decides the masks of the refraction branches from the bounds on the
    elevation that are in the context. *)
Ltac masks :=
  rewrite ?fgt_finite, ?fle_finite;
  repeat (first
    [ rewrite Rltb_true by lra
    | rewrite Rltb_false by lra
    | rewrite Rleb_true by lra
    | rewrite Rleb_false by lra ]);
  cbn [andb].

Lemma ephemeris_Refract_high (Elevation : R) :
  5 < Elevation <= 85 ->
  let TanEl := tan (Elevation * (PI / 180)) in
  TanEl <> 0
  /\ ephemeris_Refract Elevation
     = of_R (58.1 / TanEl - 0.07 / TanEl ^ 3 + 8.6e-05 / TanEl ^ 5).
Proof.
  intros HEl TanEl. pose proof PI_RGT_0 as Hpi.
  assert (Hx : 0 < Elevation * (PI / 180) < PI / 2) by nra.
  assert (Ht : 0 < TanEl) by (apply tan_gt_0; lra).
  split; [lra|].
  unfold ephemeris_Refract. rewrite radians_finite.
  rewrite tan_finite by (apply cos_pos_neq_0; lra). fold TanEl.
  masks. rewrite !fpow_finite.
  assert (TanEl ^ 3 <> 0) by (apply pow_nonzero; lra).
  assert (TanEl ^ 5 <> 0) by (apply pow_nonzero; lra).
  rewrite !fdiv_finite by assumption || lra. reflexivity.
Qed.

Lemma ephemeris_Refract_low (Elevation : R) :
  -0.575 < Elevation <= 5 ->
  ephemeris_Refract Elevation
  = of_R (Elevation *
          (-518.2 + Elevation * (103.4 + Elevation * (-12.79 + Elevation * 0.711)))
          + 1735).
Proof.
  intros HEl. unfold ephemeris_Refract. masks. reflexivity.
Qed.

Lemma ephemeris_Refract_horizon (Elevation : R) :
  -1 < Elevation <= -0.575 ->
  let TanEl := tan (Elevation * (PI / 180)) in
  TanEl <> 0 /\ ephemeris_Refract Elevation = of_R (-20.774 / TanEl).
Proof.
  intros HEl TanEl. pose proof PI_RGT_0 as Hpi.
  assert (Hx : - (PI / 2) < Elevation * (PI / 180) < 0) by nra.
  assert (Ht : TanEl < 0) by (apply tan_lt_0; lra).
  split; [lra|].
  unfold ephemeris_Refract. rewrite radians_finite.
  rewrite tan_finite by (apply cos_pos_neq_0; lra). fold TanEl.
  masks. rewrite fdiv_finite by lra. reflexivity.
Qed.

Lemma ephemeris_Refract_outside (Elevation : R) :
  Elevation <= -1 \/ 85 < Elevation ->
  ephemeris_Refract Elevation = of_R 0.
Proof.
  intros [HEl | HEl]; unfold ephemeris_Refract; masks; reflexivity.
Qed.

(** The unscaled term is finite at every finite elevation. *)
Lemma ephemeris_Refract_is_finite (Elevation : R) :
  exists r : R, ephemeris_Refract Elevation = of_R r.
Proof.
  destruct (Rle_dec Elevation (-1)) as [H1 | H1].
  { eexists. apply ephemeris_Refract_outside. left. exact H1. }
  destruct (Rle_dec Elevation (-0.575)) as [H2 | H2].
  { eexists. apply ephemeris_Refract_horizon. lra. }
  destruct (Rle_dec Elevation 5) as [H3 | H3].
  { eexists. apply ephemeris_Refract_low. lra. }
  destruct (Rle_dec Elevation 85) as [H4 | H4].
  { eexists. apply ephemeris_Refract_high. lra. }
  eexists. apply ephemeris_Refract_outside. right. lra.
Qed.

(** C6: the refraction term is the rational function of tan(elevation) on
    (5, 85], the quartic polynomial on (-0.575, 5], -20.774/tan(elevation)
    on (-1, -0.575] and zero outside (-1, 85]; it is multiplied by
    283/(273 + temperature) * (pressure/101325) / 3600 and added to the
    elevation; with pressure 0 the apparent elevation is the geometric
    elevation. *)
Theorem ephemeris_refraction (Elevation temperature pressure : R) :
  let TanEl := tan (Elevation * (PI / 180)) in
  let scale := 283 / (273 + temperature) * (pressure / 101325) / 3600 in
  (5 < Elevation <= 85 ->
   ephemeris_Refract Elevation
   = of_R (58.1 / TanEl - 0.07 / TanEl ^ 3 + 8.6e-05 / TanEl ^ 5))
  /\ (-0.575 < Elevation <= 5 ->
      ephemeris_Refract Elevation
      = of_R (Elevation *
              (-518.2 + Elevation *
                 (103.4 + Elevation * (-12.79 + Elevation * 0.711)))
              + 1735))
  /\ (-1 < Elevation <= -0.575 ->
      ephemeris_Refract Elevation = of_R (-20.774 / TanEl))
  /\ (Elevation <= -1 \/ 85 < Elevation ->
      ephemeris_Refract Elevation = of_R 0)
  /\ (273 + temperature <> 0 ->
      ephemeris_ApparentSunEl Elevation temperature pressure
      = (of_R Elevation + ephemeris_Refract Elevation * of_R scale)%fl)
  /\ (273 + temperature <> 0 ->
      ephemeris_ApparentSunEl Elevation temperature 0 = of_R Elevation).
Proof.
  intros TanEl scale.
  split; [intros H; apply ephemeris_Refract_high, H|].
  split; [apply ephemeris_Refract_low|].
  split; [intros H; apply ephemeris_Refract_horizon, H|].
  split; [apply ephemeris_Refract_outside|].
  split; intros HT; unfold ephemeris_ApparentSunEl.
  - finite. reflexivity.
  - destruct (ephemeris_Refract_is_finite Elevation) as [r ->].
    finite. f_equal. field. exact HT.
Qed.

(** No correction at pressure 0, at 30 degrees and 12 C. *)
Lemma ephemeris_refraction_witness :
  ephemeris_ApparentSunEl 30 12 0 = of_R 30.
Proof.
  apply (ephemeris_refraction 30 12 0). lra.
Defined.

(** ** Closed-form position: the arccos argument, and the mirror *)

(** The argument of the arccos of the zenith formula is the scalar product
    of two unit vectors: in exact arithmetic it never leaves [-1, 1], so a
    NaN zenith on finite angles is an effect of rounding. *)
Lemma zenith_cosine_decomposition (latitude hourangle declination : R) :
  let A := cos declination * sin latitude * cos hourangle
           - sin declination * cos latitude in
  let B := cos declination * cos latitude * cos hourangle
           + sin declination * sin latitude in
  1 - B * B = A * A + (cos declination * sin hourangle) * (cos declination * sin hourangle).
Proof.
  intros A B. subst A B.
  pose proof (sin2_cos2 latitude) as Hp.
  pose proof (sin2_cos2 declination) as Hd.
  pose proof (sin2_cos2 hourangle) as Hh.
  unfold Rsqr in *.
  set (sp := sin latitude) in *. set (cp := cos latitude) in *.
  set (sd := sin declination) in *. set (cd := cos declination) in *.
  set (sh := sin hourangle) in *. set (ch := cos hourangle) in *.
  replace (1 - (cd * cp * ch + sd * sp) * (cd * cp * ch + sd * sp))
    with ((sd * sd + cd * cd)
          - (cd * cp * ch + sd * sp) * (cd * cp * ch + sd * sp))
    by (rewrite Hd; ring).
  replace ((cd * sp * ch - sd * cp) * (cd * sp * ch - sd * cp)
           + cd * sh * (cd * sh))
    with (cd * cd * (ch * ch) * (sp * sp + cp * cp)
          + sd * sd * (sp * sp + cp * cp)
          - (cd * cp * ch + sd * sp) * (cd * cp * ch + sd * sp)
          + cd * cd * (sh * sh))
    by ring.
  rewrite Hp.
  replace (sh * sh) with (1 - ch * ch) by (rewrite <- Hh; ring).
  ring.
Qed.

Lemma zenith_cosine_bound (latitude hourangle declination : R) :
  -1 <= cos declination * cos latitude * cos hourangle
        + sin declination * sin latitude <= 1.
Proof.
  pose proof (zenith_cosine_decomposition latitude hourangle declination) as H.
  cbv zeta in H.
  set (B := cos declination * cos latitude * cos hourangle
            + sin declination * sin latitude) in *.
  set (A := cos declination * sin latitude * cos hourangle
            - sin declination * cos latitude) in *.
  set (C := cos declination * sin hourangle) in *.
  nra.
Qed.

Lemma Rsign_opp (h : R) : Rsign (- h) = - Rsign h.
Proof.
  unfold Rsign.
  destruct (Rlt_dec (- h) 0), (Rlt_dec h 0), (Rlt_dec 0 (- h)), (Rlt_dec 0 h);
    lra.
Qed.

(** X1: morning and afternoon mirror each other: negating the hour angle
    leaves the zenith unchanged and turns the azimuth a into 2 pi - a (NaN
    staying NaN). *)
Theorem solar_position_mirror (latitude hourangle declination zenith : R) :
  solar_zenith_analytical latitude (- hourangle)%R declination
  = solar_zenith_analytical latitude hourangle declination
  /\ solar_azimuth_analytical latitude (- hourangle)%R declination zenith
     = (of_R (2 * PI)
        - solar_azimuth_analytical latitude hourangle declination zenith)%fl.
Proof.
  split.
  - unfold solar_zenith_analytical. cbn [np.sin np.cos lift1 of_R].
    rewrite cos_neg. reflexivity.
  - rewrite !solar_azimuth_analytical_finite.
    destruct (Rleb _ _ && Rleb _ _); [|reflexivity].
    rewrite Rsign_opp. finite. f_equal. ring.
Qed.

(** ** Geometric sunrise and sunset *)

(** On finite arguments away from the poles of the tangent, the sunset
    hour angle is the arccos in degrees when its argument lies in
    [-1, 1]. *)
Lemma sunset_angle_finite (latitude declination : R) :
  cos declination <> 0 ->
  cos (latitude * (PI / 180)) <> 0 ->
  -1 <= - tan declination * tan (latitude * (PI / 180)) <= 1 ->
  sunset_angle latitude declination
  = of_R (acos (- tan declination * tan (latitude * (PI / 180)))
          * (180 / PI)).
Proof.
  intros Hd Hl Hin. unfold sunset_angle.
  rewrite radians_finite, !tan_finite by assumption.
  change (- of_R (tan declination))%fl with (of_R (- tan declination)).
  finite. rewrite (arccos_in_range _ Hin). apply degrees_finite.
Qed.

(** X2: the sunset hour angle is 90 degrees, half of a twelve-hour day, at
    the equator whatever the declination and at declination zero whatever
    the latitude, away from the poles of the tangent. *)
Theorem sunset_angle_equator_equinox (latitude declination : R) :
  (cos declination <> 0 -> sunset_angle 0 declination = of_R 90)
  /\ (cos (latitude * (PI / 180)) <> 0 -> sunset_angle latitude 0 = of_R 90).
Proof.
  pose proof PI_neq0 as Hpi.
  split; intros H.
  - rewrite sunset_angle_finite.
    + rewrite Rmult_0_l, tan_0, Rmult_0_r, acos_0. f_equal. field. exact Hpi.
    + exact H.
    + rewrite Rmult_0_l, cos_0. lra.
    + rewrite Rmult_0_l, tan_0. lra.
  - rewrite sunset_angle_finite.
    + rewrite tan_0, Ropp_0, Rmult_0_l, acos_0. f_equal. field. exact Hpi.
    + rewrite cos_0. lra.
    + exact H.
    + rewrite tan_0. lra.
Qed.

(** The equator at the winter declination. *)
Lemma sunset_angle_equator_equinox_witness :
  sunset_angle 0 winter_declination = of_R 90.
Proof.
  apply (sunset_angle_equator_equinox 0 winter_declination).
  apply cos_pos_neq_0. unfold winter_declination.
  pose proof PI_RGT_0. lra.
Defined.

(** X3: where the sun rises and sets (the arccos argument within [-1, 1])
    the hours of sunrise, transit and sunset are finite, the sunset angle
    s lies in [0, 180] degrees, and sunrise and sunset lie s / 15 hours
    before and after the transit. *)
Theorem sunrise_sunset_symmetric (times : Timestamp)
  (latitude longitude declination equation_of_time : R) :
  cos declination <> 0 ->
  cos (latitude * (PI / 180)) <> 0 ->
  -1 <= - tan declination * tan (latitude * (PI / 180)) <= 1 ->
  in_int64 (naive times - value times) ->
  exists s rise set transit : R,
    sunset_angle latitude declination = of_R s
    /\ sunrise_hour times latitude longitude declination equation_of_time
       = of_R rise
    /\ sunset_hour times latitude longitude declination equation_of_time
       = of_R set
    /\ transit_hour times longitude equation_of_time = of_R transit
    /\ 0 <= s <= 180
    /\ transit - rise = s / 15
    /\ set - transit = s / 15.
Proof.
  intros Hd Hl Hin Hr.
  pose proof (sunset_angle_finite _ _ Hd Hl Hin) as Hs.
  set (s := acos (- tan declination * tan (latitude * (PI / 180)))
            * (180 / PI)) in *.
  exists s. do 3 eexists.
  split; [exact Hs|].
  split.
  { unfold sunrise_hour, sunrise_angle. rewrite Hs.
    change (- of_R s)%fl with (of_R (- s)).
    apply _hour_angle_to_hours_finite, Hr. }
  split.
  { unfold sunset_hour. rewrite Hs.
    apply _hour_angle_to_hours_finite, Hr. }
  split.
  { unfold transit_hour. apply _hour_angle_to_hours_finite, Hr. }
  split.
  { pose proof (acos_bound (- tan declination * tan (latitude * (PI / 180))))
      as [H0 H1].
    pose proof PI_RGT_0 as Hpi. unfold s.
    assert (H180 : 0 < 180 / PI) by (apply Rdiv_lt_0_compat; lra).
    split; [nra|].
    apply (Rmult_le_compat_r (180 / PI)) in H1; [|lra].
    replace (PI * (180 / PI)) with 180 in H1 by (field; lra). exact H1. }
  split; field.
Qed.

(** The equator at the winter declination, on the winter sample
    timestamp. *)
Lemma sunrise_sunset_symmetric_witness :
  exists s rise set transit : R,
    sunset_angle 0 winter_declination = of_R s
    /\ sunrise_hour winter_noon 0 0 winter_declination 0 = of_R rise
    /\ sunset_hour winter_noon 0 0 winter_declination 0 = of_R set
    /\ transit_hour winter_noon 0 0 = of_R transit
    /\ 0 <= s <= 180
    /\ transit - rise = s / 15
    /\ set - transit = s / 15.
Proof.
  assert (Hpi := PI_RGT_0).
  apply (sunrise_sunset_symmetric winter_noon 0 0 winter_declination 0).
  - apply cos_pos_neq_0. unfold winter_declination. lra.
  - rewrite Rmult_0_l, cos_0. lra.
  - rewrite Rmult_0_l, tan_0. lra.
  - vm_compute. split; [discriminate | reflexivity].
Defined.

(** ** Converters: hours back to timestamps *)

Lemma Rtrunc_nonneg (x : R) :
  0 <= x -> IZR (Rtrunc x) <= x < IZR (Rtrunc x) + 1.
Proof.
  intros Hx. unfold Rtrunc. destruct (Rle_dec 0 x); [|contradiction].
  pose proof (base_Int_part x). lra.
Qed.

Lemma normalize_naive_mod (n : Z) : (normalize_naive n mod NS_PER_DAY = 0)%Z.
Proof.
  unfold normalize_naive.
  rewrite Zminus_mod, Zmod_mod, Z.sub_diag. reflexivity.
Qed.

Lemma normalize_naive_idem (n z : Z) :
  (0 <= z < NS_PER_DAY)%Z ->
  normalize_naive (normalize_naive n + z) = normalize_naive n.
Proof.
  intros Hz. unfold normalize_naive at 1.
  rewrite Zplus_mod, normalize_naive_mod, Z.add_0_l, Zmod_mod.
  rewrite (Z.mod_small z) by exact Hz. ring.
Qed.

(** In a zone with a fixed offset, hours in [0, 24) become the instant
    that many hours, truncated to the nanosecond, after the local midnight
    of [times]. *)
Lemma local_times_fixed (nan_cast o u : Z) (h : R) :
  (Z.abs o <= NS_PER_DAY)%Z ->
  (Z.abs u <= 2 ^ 62)%Z ->
  0 <= h < 24 ->
  let z := Rtrunc (h * (1e9 * 3600)) in
  (0 <= z < NS_PER_DAY)%Z
  /\ _local_times_from_hours_since_midnight nan_cast
       {| value := u; tz := fixed_offset o |} (of_R h)
     = Some (Instant (normalize_naive (u + o) + z - o)).
Proof.
  intros Ho Hu Hh z.
  set (x := h * (1e9 * 3600)) in *.
  assert (Hx : 0 <= x < 86400000000000) by (unfold x; lra).
  pose proof (Rtrunc_nonneg x (proj1 Hx)) as [Hz1 Hz2]. fold z in Hz1, Hz2.
  assert (Hz : (0 <= z < NS_PER_DAY)%Z).
  { unfold NS_PER_DAY. split.
    - apply le_IZR. apply Rnot_lt_le. intros Hneg.
      assert (IZR z <= -1) by (apply IZR_le; apply lt_IZR in Hneg; lia). lra.
    - apply lt_IZR. lra. }
  split; [exact Hz|].
  unfold _local_times_from_hours_since_midnight.
  rewrite NS_PER_HR_finite. finite. fold x.
  assert (Hcast : astype_int64 nan_cast (of_R x) = z).
  { unfold astype_int64, of_R. fold z. unfold INT64_MIN.
    replace (- 2 ^ 63 <=? z)%Z with true
      by (symmetry; apply Z.leb_le; unfold NS_PER_DAY in *; lia).
    replace (z <? 2 ^ 63)%Z with true
      by (symmetry; apply Z.ltb_lt; unfold NS_PER_DAY in *; lia).
    reflexivity. }
  rewrite Hcast. cbn [tz]. unfold naive. cbn [value tz].
  change (utcoffset (fixed_offset o) u) with o.
  pose proof (Z.mod_pos_bound (u + o) NS_PER_DAY NS_PER_DAY_pos) as Hb.
  assert (Hwall : int64_add (normalize_naive (u + o)) z
                  = (normalize_naive (u + o) + z)%Z).
  { apply wrap64_small. unfold in_int64, normalize_naive.
    unfold NS_PER_DAY in *. lia. }
  rewrite Hwall. unfold DatetimeIndex.
  replace (normalize_naive (u + o) + z =? INT64_MIN)%Z with false
    by (symmetry; apply Z.eqb_neq; unfold INT64_MIN, normalize_naive;
        unfold NS_PER_DAY in *; lia).
  rewrite tz_localize_fixed. reflexivity.
Qed.

(** Truncation keeps the order of hours that are not negative. *)
Lemma Rtrunc_le (x y : R) :
  0 <= x -> x <= y -> (Rtrunc x <= Rtrunc y)%Z.
Proof.
  intros Hx Hxy.
  pose proof (Rtrunc_nonneg x Hx) as [H1 _].
  pose proof (Rtrunc_nonneg y (Rle_trans _ _ _ Hx Hxy)) as [_ H2].
  assert (H : IZR (Rtrunc x) < IZR (Rtrunc y + 1))
    by (rewrite plus_IZR; lra).
  apply lt_IZR in H. lia.
Qed.

(** The local day of an instant that lies less than a day after a local
    midnight. *)
Lemma local_date_after_midnight (o n z : Z) :
  (0 <= z < NS_PER_DAY)%Z ->
  local_date {| value := normalize_naive n + z - o; tz := fixed_offset o |}
  = (n / NS_PER_DAY)%Z.
Proof.
  intros Hz. unfold local_date, naive. cbn [value tz].
  change (utcoffset (fixed_offset o) _) with o.
  replace (normalize_naive n + z - o + o)%Z with (normalize_naive n + z)%Z
    by ring.
  unfold normalize_naive.
  pose proof NS_PER_DAY_pos as Hd.
  rewrite (Z.div_mod n NS_PER_DAY) at 1 by lia.
  replace (NS_PER_DAY * (n / NS_PER_DAY) + n mod NS_PER_DAY
           - n mod NS_PER_DAY + z)%Z
    with (z + (n / NS_PER_DAY) * NS_PER_DAY)%Z by ring.
  rewrite Z.div_add by lia. rewrite Z.div_small by exact Hz. ring.
Qed.

(** X4: [_times_to_hours_after_local_midnight] is undone by
    [_local_times_from_hours_since_midnight]: for a timestamp whose wall
    clock reading localizes back to it, the hours after local midnight
    convert back to the same instant. *)
Theorem local_times_of_hours_after_midnight (nan_cast : Z) (t : Timestamp) :
  tz_localize (tz t) (naive t) = Some (value t) ->
  (INT64_MIN < naive t < 2 ^ 63)%Z ->
  _local_times_from_hours_since_midnight nan_cast t
    (_times_to_hours_after_local_midnight t)
  = Some (Instant (value t)).
Proof.
  intros Hloc Hr.
  rewrite _times_to_hours_after_local_midnight_finite.
  unfold _local_times_from_hours_since_midnight, wall_clock_hours.
  rewrite NS_PER_HR_finite. finite.
  replace (IZR (naive t mod NS_PER_DAY) / (1e9 * 3600) * (1e9 * 3600))
    with (IZR (naive t mod NS_PER_DAY)) by (field; lra).
  pose proof (Z.mod_pos_bound (naive t) NS_PER_DAY NS_PER_DAY_pos) as Hb.
  rewrite astype_int64_IZR
    by (unfold in_int64; unfold NS_PER_DAY in *; lia).
  unfold int64_add, normalize_naive.
  replace (naive t - naive t mod NS_PER_DAY + naive t mod NS_PER_DAY)%Z
    with (naive t) by ring.
  rewrite wrap64_small by (unfold in_int64, INT64_MIN in *; lia).
  unfold DatetimeIndex.
  replace (naive t =? INT64_MIN)%Z with false
    by (symmetry; apply Z.eqb_neq; lia).
  rewrite Hloc. reflexivity.
Qed.

(** The solstice sample timestamp, in a zone seven hours behind UTC. *)
Lemma local_times_of_hours_after_midnight_witness :
  _local_times_from_hours_since_midnight INT64_MIN golden_solstice
    (_times_to_hours_after_local_midnight golden_solstice)
  = Some (Instant (value golden_solstice)).
Proof.
  apply (local_times_of_hours_after_midnight INT64_MIN golden_solstice).
  - vm_compute. reflexivity.
  - vm_compute. split; reflexivity.
Defined.

(** X5: in a zone with a fixed offset, the timestamp that
    [_hour_angle_to_hours] and [_local_times_from_hours_since_midnight]
    return for an hour angle that falls on the local day of [times] is an
    instant whose [hour_angle] is the requested one to within two
    nanoseconds of rotation (a nanosecond is 15 / 3.6e12 degrees): the
    cast to int64 truncates. *)
Theorem hour_angle_of_local_time (nan_cast o u : Z)
  (hourangle longitude equation_of_time : R) :
  (Z.abs o <= NS_PER_DAY)%Z ->
  (Z.abs u <= 2 ^ 62)%Z ->
  let t := {| value := u; tz := fixed_offset o |} in
  let h := (hourangle - longitude - equation_of_time / 4) / 15 + 12
           + IZR o / (1e9 * 3600) in
  0 <= h < 24 ->
  exists (u' : Z) (ha' : R),
    _local_times_from_hours_since_midnight nan_cast t
      (_hour_angle_to_hours t hourangle longitude equation_of_time)
    = Some (Instant u')
    /\ hour_angle {| value := u'; tz := fixed_offset o |}
         longitude equation_of_time = Some (of_R ha')
    /\ Rabs (ha' - hourangle) < 2 * (15 / (1e9 * 3600)).
Proof.
  intros Ho Hu t h Hh.
  assert (Hnaive : naive t = (u + o)%Z) by reflexivity.
  assert (Hhours : _hour_angle_to_hours t hourangle longitude equation_of_time
                   = of_R h).
  { rewrite _hour_angle_to_hours_finite.
    - rewrite Hnaive. change (value t) with u.
      replace (u + o - u)%Z with o by ring. reflexivity.
    - rewrite Hnaive. change (value t) with u. unfold in_int64.
      unfold NS_PER_DAY in *. lia. }
  rewrite Hhours. unfold t at 1.
  destruct (local_times_fixed nan_cast o u h Ho Hu Hh) as [Hz ->].
  set (x := h * (1e9 * 3600)) in *.
  assert (Hx : 0 <= x < 86400000000000) by (unfold x; lra).
  pose proof (Rtrunc_nonneg x (proj1 Hx)) as [Hz1 Hz2].
  set (z := Rtrunc x) in *.
  pose proof (Z.mod_pos_bound (u + o) NS_PER_DAY NS_PER_DAY_pos) as Hb.
  set (u' := (normalize_naive (u + o) + z - o)%Z).
  exists u'. eexists. split; [reflexivity|].
  assert (Hn' : naive {| value := u'; tz := fixed_offset o |}
                = (normalize_naive (u + o) + z)%Z).
  { unfold naive. cbn. unfold u'. ring. }
  split.
  - apply (hour_angle_finite _ _ _ _ (normalize_fixed o u')).
    cbn [value]. rewrite Hn'.
    replace (u' + o)%Z with (normalize_naive (u + o) + z)%Z
      by (unfold u'; ring).
    rewrite normalize_naive_idem by exact Hz.
    unfold in_int64, u'. unfold NS_PER_DAY in *. lia.
  - cbn [value]. rewrite Hn'.
    replace (u' + o)%Z with (normalize_naive (u + o) + z)%Z
      by (unfold u'; ring).
    rewrite normalize_naive_idem by exact Hz.
    replace (2 * u' - (normalize_naive (u + o) - o)
             - (normalize_naive (u + o) + z))%Z
      with (z - o)%Z by (unfold u'; ring).
    rewrite minus_IZR.
    assert (Hha : hourangle
                  = 15 * (x / (1e9 * 3600) - IZR o / (1e9 * 3600) - 12)
                    + longitude + equation_of_time / 4).
    { unfold x, h. field. }
    clearbody z x. apply Rabs_def1; lra.
Qed.

(** Solar noon on 21 June 2023 at longitude -105, seven hours behind UTC. *)
Lemma hour_angle_of_local_time_witness :
  exists (u' : Z) (ha' : R),
    _local_times_from_hours_since_midnight INT64_MIN
      {| value := 1687370400000000000;
         tz := fixed_offset (-25200000000000) |}
      (_hour_angle_to_hours
         {| value := 1687370400000000000;
            tz := fixed_offset (-25200000000000) |} 0 (-105) (-1.5))
    = Some (Instant u')
    /\ hour_angle {| value := u'; tz := fixed_offset (-25200000000000) |}
         (-105) (-1.5) = Some (of_R ha')
    /\ Rabs (ha' - 0) < 2 * (15 / (1e9 * 3600)).
Proof.
  apply (hour_angle_of_local_time INT64_MIN (-25200000000000)
           1687370400000000000 0 (-105) (-1.5)).
  - vm_compute. discriminate.
  - vm_compute. discriminate.
  - lra.
Defined.

(** X6: between two timestamps of one local calendar day, each with the
    UTC offset of its local midnight, the hour angle grows by 15 degrees
    per hour of elapsed time. *)
Theorem hour_angle_advances (t1 t2 m1 m2 : Timestamp)
  (longitude equation_of_time : R) :
  normalize t1 = Some m1 ->
  normalize t2 = Some m2 ->
  utcoffset (tz t1) (value m1) = utcoffset (tz t1) (value t1) ->
  utcoffset (tz t2) (value m2) = utcoffset (tz t2) (value t2) ->
  (Z.abs (utcoffset (tz t1) (value t1)) <= NS_PER_DAY)%Z ->
  (Z.abs (utcoffset (tz t2) (value t2)) <= NS_PER_DAY)%Z ->
  local_date t1 = local_date t2 ->
  exists h1 h2 : R,
    hour_angle t1 longitude equation_of_time = Some (of_R h1)
    /\ hour_angle t2 longitude equation_of_time = Some (of_R h2)
    /\ h2 - h1 = 15 * (IZR (value t2 - value t1) / (1e9 * 3600)).
Proof.
  intros Hn1 Hn2 Hs1 Hs2 Ho1 Ho2 Hd.
  exists (hour_angle_formula t1 longitude equation_of_time),
         (hour_angle_formula t2 longitude equation_of_time).
  split; [apply (hour_angle_settled t1 m1); assumption|].
  split; [apply (hour_angle_settled t2 m2); assumption|].
  rewrite !hour_angle_formula_instant, Hd, minus_IZR. field.
Qed.

(** The solstice sample timestamp and the instant one hour later. *)
Lemma hour_angle_advances_witness :
  exists h1 h2 : R,
    hour_angle golden_solstice (-105) (-1.5) = Some (of_R h1)
    /\ hour_angle
         {| value := 1687374000000000000; tz := fixed_offset (-7 * HOUR) |}
         (-105) (-1.5) = Some (of_R h2)
    /\ h2 - h1
       = 15 * (IZR (1687374000000000000 - value golden_solstice)
               / (1e9 * 3600)).
Proof.
  apply (hour_angle_advances golden_solstice
           {| value := 1687374000000000000; tz := fixed_offset (-7 * HOUR) |}
           {| value := 1687330800000000000; tz := fixed_offset (-7 * HOUR) |}
           {| value := 1687330800000000000; tz := fixed_offset (-7 * HOUR) |}).
  - vm_compute. reflexivity.
  - vm_compute. reflexivity.
  - reflexivity.
  - reflexivity.
  - vm_compute. discriminate.
  - vm_compute. discriminate.
  - vm_compute. reflexivity.
Defined.

(** ** Geometric sunrise and sunset: the three timestamps *)

(** X7: in a zone with a fixed offset, where the sun rises and sets and
    sunrise and sunset fall on the local day of [times],
    [sun_rise_set_transit_geometric] returns three instants of that local
    day in the order sunrise, transit, sunset, and the transit is the
    middle of the day to within two nanoseconds. *)
Theorem sun_rise_set_transit_geometric_ordered (nan_cast o u : Z)
  (latitude longitude declination equation_of_time : R) :
  (Z.abs o <= NS_PER_DAY)%Z ->
  (Z.abs u <= 2 ^ 62)%Z ->
  cos declination <> 0 ->
  cos (latitude * (PI / 180)) <> 0 ->
  -1 <= - tan declination * tan (latitude * (PI / 180)) <= 1 ->
  let times := {| value := u; tz := fixed_offset o |} in
  let s := acos (- tan declination * tan (latitude * (PI / 180)))
           * (180 / PI) in
  let noon := (0 - longitude - equation_of_time / 4) / 15 + 12
              + IZR o / (1e9 * 3600) in
  0 <= noon - s / 15 ->
  noon + s / 15 < 24 ->
  exists sunrise sunset transit : Z,
    sun_rise_set_transit_geometric nan_cast times latitude longitude
      declination equation_of_time
    = Some (Instant sunrise, Instant sunset, Instant transit)
    /\ (sunrise <= transit <= sunset)%Z
    /\ (Z.abs ((sunset - transit) - (transit - sunrise)) <= 2)%Z
    /\ local_date {| value := sunrise; tz := fixed_offset o |}
       = local_date times
    /\ local_date {| value := sunset; tz := fixed_offset o |}
       = local_date times.
Proof.
  intros Ho Hu Hd Hl Hin times s noon Hrise Hset.
  assert (Hr : in_int64 (naive times - value times)).
  { unfold naive, times. cbn [value tz].
    change (utcoffset (fixed_offset o) u) with o.
    unfold in_int64. unfold NS_PER_DAY in *. lia. }
  assert (Hoff : (naive times - value times)%Z = o).
  { unfold naive, times. cbn [value tz].
    change (utcoffset (fixed_offset o) u) with o. ring. }
  pose proof (sunset_angle_finite _ _ Hd Hl Hin) as Hs. fold s in Hs.
  assert (Hs0 : 0 <= s).
  { pose proof (acos_bound (- tan declination * tan (latitude * (PI / 180))))
      as [H0 _].
    pose proof PI_RGT_0 as Hpi. unfold s.
    assert (H180 : 0 < 180 / PI) by (apply Rdiv_lt_0_compat; lra).
    nra. }
  assert (Hhr : sunrise_hour times latitude longitude declination
                  equation_of_time = of_R (noon - s / 15)).
  { unfold sunrise_hour, sunrise_angle. rewrite Hs.
    change (- of_R s)%fl with (of_R (- s)).
    rewrite (_hour_angle_to_hours_finite _ _ _ _ Hr), Hoff.
    f_equal. unfold noon. field. }
  assert (Hhs : sunset_hour times latitude longitude declination
                  equation_of_time = of_R (noon + s / 15)).
  { unfold sunset_hour. rewrite Hs.
    rewrite (_hour_angle_to_hours_finite _ _ _ _ Hr), Hoff.
    f_equal. unfold noon. field. }
  assert (Hht : transit_hour times longitude equation_of_time = of_R noon).
  { unfold transit_hour.
    rewrite (_hour_angle_to_hours_finite _ _ _ _ Hr), Hoff. reflexivity. }
  unfold sun_rise_set_transit_geometric. rewrite Hhr, Hhs, Hht.
  unfold times at 1 2 3.
  destruct (local_times_fixed nan_cast o u (noon - s / 15) Ho Hu)
    as [Hzr ->]; [lra|].
  destruct (local_times_fixed nan_cast o u (noon + s / 15) Ho Hu)
    as [Hzs ->]; [lra|].
  destruct (local_times_fixed nan_cast o u noon Ho Hu)
    as [Hzt ->]; [lra|].
  do 3 eexists. split; [reflexivity|].
  set (k := 1e9 * 3600) in *.
  assert (Hk : 0 < k) by (unfold k; lra).
  assert (Hxr : 0 <= (noon - s / 15) * k) by nra.
  assert (Hxt : 0 <= noon * k) by nra.
  assert (Hxs : 0 <= (noon + s / 15) * k) by nra.
  pose proof (Rtrunc_le _ _ Hxr (ltac:(nra) : (noon - s / 15) * k <= noon * k))
    as Hrt.
  pose proof (Rtrunc_le _ _ Hxt (ltac:(nra) : noon * k <= (noon + s / 15) * k))
    as Hts.
  pose proof (Rtrunc_nonneg _ Hxr) as [Hr1 Hr2].
  pose proof (Rtrunc_nonneg _ Hxt) as [Ht1 Ht2].
  pose proof (Rtrunc_nonneg _ Hxs) as [Hs1 Hs2].
  set (zr := Rtrunc ((noon - s / 15) * k)) in *.
  set (zt := Rtrunc (noon * k)) in *.
  set (zs := Rtrunc ((noon + s / 15) * k)) in *.
  split; [lia|]. split.
  - assert (Hlt : IZR (zs - zt - (zt - zr)) < IZR 2)
      by (rewrite !minus_IZR; lra).
    assert (Hgt : IZR (-2) < IZR (zs - zt - (zt - zr)))
      by (rewrite !minus_IZR; lra).
    apply lt_IZR in Hlt, Hgt. lia.
  - split; rewrite local_date_after_midnight by assumption;
      unfold local_date, naive, times; cbn [value tz];
      reflexivity.
Qed.

(** The equator at the equinox, longitude -105 in a zone seven hours
    behind UTC: sunrise at 6, transit at 12, sunset at 18. *)
Lemma sun_rise_set_transit_geometric_ordered_witness :
  exists sunrise sunset transit : Z,
    sun_rise_set_transit_geometric INT64_MIN
      {| value := 1687370400000000000;
         tz := fixed_offset (-25200000000000) |} 0 (-105) 0 0
    = Some (Instant sunrise, Instant sunset, Instant transit)
    /\ (sunrise <= transit <= sunset)%Z
    /\ (Z.abs ((sunset - transit) - (transit - sunrise)) <= 2)%Z
    /\ local_date {| value := sunrise;
                     tz := fixed_offset (-25200000000000) |}
       = local_date {| value := 1687370400000000000;
                       tz := fixed_offset (-25200000000000) |}
    /\ local_date {| value := sunset;
                     tz := fixed_offset (-25200000000000) |}
       = local_date {| value := 1687370400000000000;
                       tz := fixed_offset (-25200000000000) |}.
Proof.
  assert (Hpi := PI_RGT_0).
  assert (Hs : acos (- tan 0 * tan (0 * (PI / 180))) * (180 / PI) = 90).
  { rewrite tan_0, Ropp_0, Rmult_0_l, acos_0. field. lra. }
  apply (sun_rise_set_transit_geometric_ordered INT64_MIN
           (-25200000000000) 1687370400000000000 0 (-105) 0 0).
  - vm_compute. discriminate.
  - vm_compute. discriminate.
  - rewrite cos_0. lra.
  - rewrite Rmult_0_l, cos_0. lra.
  - rewrite tan_0. lra.
  - rewrite Hs. lra.
  - rewrite Hs. lra.
Defined.

(** ** Day-of-year series: period, bounds, equivalent forms *)

Lemma day_angle_finite (d offset : R) :
  _calculate_simple_day_angle (of_R d) (of_R offset)
  = of_R (2 * PI / 365 * (d - offset)).
Proof.
  unfold _calculate_simple_day_angle, np.pi.
  change (Some PI) with (of_R PI). finite. reflexivity.
Qed.

Lemma sin_finite (x : R) : np.sin (of_R x) = of_R (sin x).
Proof. reflexivity. Qed.

Lemma cos_finite (x : R) : np.cos (of_R x) = of_R (cos x).
Proof. reflexivity. Qed.

(** Rewrites a series on a finite day of year into real arithmetic. *)
Ltac series :=
  rewrite ?day_angle_finite;
  unfold np.deg2rad, np.pi; change (Some PI) with (of_R PI);
  repeat (first
    [ rewrite radians_finite
    | rewrite sin_finite
    | rewrite cos_finite
    | rewrite fadd_finite
    | rewrite fsub_finite
    | rewrite fmul_finite
    | rewrite fdiv_finite by (try apply PI_neq0; lra) ]).

Lemma sin_shift_turns (x : R) (k : nat) (y : R) :
  y = x + 2 * INR k * PI -> sin y = sin x.
Proof. intros ->. apply sin_period. Qed.

Lemma cos_shift_turns (x : R) (k : nat) (y : R) :
  y = x + 2 * INR k * PI -> cos y = cos x.
Proof. intros ->. apply cos_period. Qed.

(** X8: the four day-of-year series (both equations of time, both
    declinations) have period 365 in the day of year. *)
Theorem day_of_year_series_period (dayofyear : R) :
  equation_of_time_spencer71 (dayofyear + 365)%R
  = equation_of_time_spencer71 dayofyear
  /\ equation_of_time_pvcdrom (dayofyear + 365)%R
     = equation_of_time_pvcdrom dayofyear
  /\ declination_spencer71 (dayofyear + 365)%R
     = declination_spencer71 dayofyear
  /\ declination_cooper69 (dayofyear + 365)%R
     = declination_cooper69 dayofyear.
Proof.
  pose proof PI_neq0 as Hpi.
  set (a := 2 * PI / 365 * (dayofyear - 1)).
  assert (Ha : 2 * PI / 365 * (dayofyear + 365 - 1) = a + 2 * INR 1 * PI)
    by (unfold a; cbn [INR]; field).
  assert (Hc1 : cos (2 * PI / 365 * (dayofyear + 365 - 1)) = cos a)
    by (apply (cos_shift_turns a 1), Ha).
  assert (Hs1 : sin (2 * PI / 365 * (dayofyear + 365 - 1)) = sin a)
    by (apply (sin_shift_turns a 1), Ha).
  assert (Hc2 : cos (2 * (2 * PI / 365 * (dayofyear + 365 - 1))) = cos (2 * a))
    by (apply (cos_shift_turns (2 * a) 2); rewrite Ha; cbn [INR]; ring).
  assert (Hs2 : sin (2 * (2 * PI / 365 * (dayofyear + 365 - 1))) = sin (2 * a))
    by (apply (sin_shift_turns (2 * a) 2); rewrite Ha; cbn [INR]; ring).
  assert (Hc3 : cos (3 * (2 * PI / 365 * (dayofyear + 365 - 1))) = cos (3 * a))
    by (apply (cos_shift_turns (3 * a) 3); rewrite Ha; cbn [INR]; ring).
  assert (Hs3 : sin (3 * (2 * PI / 365 * (dayofyear + 365 - 1))) = sin (3 * a))
    by (apply (sin_shift_turns (3 * a) 3); rewrite Ha; cbn [INR]; ring).
  repeat split.
  - unfold equation_of_time_spencer71. series.
    fold a. rewrite Hc1, Hs1, Hc2, Hs2. reflexivity.
  - unfold equation_of_time_pvcdrom. series. fold a.
    rewrite (cos_shift_turns (a - 2 * PI / 365 * 80) 1)
      by (rewrite Ha; cbn [INR]; ring).
    rewrite (sin_shift_turns (a - 2 * PI / 365 * 80) 1
               (2 * PI / 365 * (dayofyear + 365 - 1) - 2 * PI / 365 * 80))
      by (rewrite Ha; cbn [INR]; ring).
    rewrite (sin_shift_turns (2 * (a - 2 * PI / 365 * 80)) 2)
      by (rewrite Ha; cbn [INR]; ring).
    reflexivity.
  - unfold declination_spencer71. series.
    fold a. rewrite Hc1, Hs1, Hc2, Hs2, Hc3, Hs3. reflexivity.
  - unfold declination_cooper69. series. fold a.
    rewrite (sin_shift_turns (a + 2 * PI / 365 * 285) 1)
      by (rewrite Ha; cbn [INR]; ring).
    reflexivity.
Qed.

Lemma Rabs_sin_1 (x : R) : Rabs (sin x) <= 1.
Proof. apply Rabs_le. pose proof (SIN_bound x). lra. Qed.

Lemma Rabs_cos_1 (x : R) : Rabs (cos x) <= 1.
Proof. apply Rabs_le. pose proof (COS_bound x). lra. Qed.

(** X9: the equation of time is finite on every finite day of year and
    stays within 18.9 minutes (PVCDROM) and within
    1440 / (2 pi) * 0.0894165 < 21.5 minutes (Spencer). *)
Theorem equation_of_time_bounds (dayofyear : R) :
  exists pvcdrom spencer : R,
    equation_of_time_pvcdrom dayofyear = of_R pvcdrom
    /\ equation_of_time_spencer71 dayofyear = of_R spencer
    /\ Rabs pvcdrom <= 18.9
    /\ Rabs spencer <= 1440 / 2 / PI * 0.0894165
    /\ Rabs spencer < 21.5.
Proof.
  pose proof PI2_3_2 as Hpi.
  assert (Hk : 0 < 1440 / 2 / PI) by (apply Rdiv_lt_0_compat; lra).
  do 2 eexists.
  split; [unfold equation_of_time_pvcdrom; series; reflexivity|].
  split; [unfold equation_of_time_spencer71; series; reflexivity|].
  set (a := 2 * PI / 365 * (dayofyear - 1)).
  set (b := a - 2 * PI / 365 * 80).
  pose proof (SIN_bound (2 * b)). pose proof (COS_bound b).
  pose proof (SIN_bound b).
  pose proof (SIN_bound a). pose proof (COS_bound a).
  pose proof (SIN_bound (2 * a)). pose proof (COS_bound (2 * a)).
  assert (Hs : Rabs (1440 / 2 / PI *
                     (0.0000075 + 0.001868 * cos a - 0.032077 * sin a
                      - 0.014615 * cos (2 * a) - 0.040849 * sin (2 * a)))
               <= 1440 / 2 / PI * 0.0894165).
  { rewrite Rabs_mult, (Rabs_pos_eq (1440 / 2 / PI)) by lra.
    apply Rmult_le_compat_l; [lra|]. apply Rabs_le. lra. }
  split; [apply Rabs_le; lra|].
  split; [exact Hs|].
  eapply Rle_lt_trans; [exact Hs|].
  apply (Rmult_lt_reg_r PI); [lra|].
  replace (1440 / 2 / PI * 0.0894165 * PI) with (720 * 0.0894165)
    by (field; lra).
  lra.
Qed.

(** X10: Cooper's declination is 23.45 degrees times the sine of
    (2 pi / 365) (n + 284), which is minus 23.45 degrees times the cosine
    of (2 pi / 365) (n + 10.25); it stays within 23.45 degrees. *)
Theorem declination_cooper69_forms (dayofyear : R) :
  declination_cooper69 dayofyear
  = of_R (23.45 * sin (2 * PI / 365 * (dayofyear + 284)) * (PI / 180))
  /\ declination_cooper69 dayofyear
     = of_R (-23.45 * cos (2 * PI / 365 * (dayofyear + 10.25)) * (PI / 180))
  /\ Rabs (23.45 * sin (2 * PI / 365 * (dayofyear + 284)) * (PI / 180))
     <= 23.45 * (PI / 180).
Proof.
  pose proof PI_RGT_0 as Hpi.
  assert (E : declination_cooper69 dayofyear
              = of_R (23.45 * sin (2 * PI / 365 * (dayofyear + 284))
                      * (PI / 180))).
  { unfold declination_cooper69. series.
    replace (2 * PI / 365 * (dayofyear - 1) + 2 * PI / 365 * 285)
      with (2 * PI / 365 * (dayofyear + 284)) by field.
    reflexivity. }
  split; [exact E|]. split.
  - rewrite E. f_equal.
    assert (Hq : 10.25 = 41 / 4) by lra.
    replace (2 * PI / 365 * (dayofyear + 284))
      with (2 * PI / 365 * (dayofyear + 10.25) + - (PI / 2) + 2 * PI)
      by (rewrite Hq; field).
    rewrite sin_plus, cos_2PI, sin_2PI.
    rewrite sin_plus, cos_neg, sin_neg, sin_PI2, cos_PI2.
    assert (Hm : -23.45 = - (23.45)) by lra. rewrite Hm. ring.
  - rewrite !Rabs_mult, (Rabs_pos_eq 23.45), (Rabs_pos_eq (PI / 180)) by lra.
    pose proof (Rabs_sin_1 (2 * PI / 365 * (dayofyear + 284))).
    pose proof (Rabs_pos (sin (2 * PI / 365 * (dayofyear + 284)))).
    nra.
Qed.

(** X11: Spencer's declination is finite and stays within 0.488929
    radians, short of a right angle, so that its tangent is finite. *)
Theorem declination_spencer71_bound (dayofyear : R) :
  exists dec : R,
    declination_spencer71 dayofyear = of_R dec
    /\ Rabs dec <= 0.488929
    /\ cos dec <> 0.
Proof.
  eexists. split; [unfold declination_spencer71; series; reflexivity|].
  set (a := 2 * PI / 365 * (dayofyear - 1)).
  pose proof (SIN_bound a). pose proof (COS_bound a).
  pose proof (SIN_bound (2 * a)). pose proof (COS_bound (2 * a)).
  pose proof (SIN_bound (3 * a)). pose proof (COS_bound (3 * a)).
  assert (Hb : Rabs (0.006918 - 0.399912 * cos a + 0.070257 * sin a
                     - 0.006758 * cos (2 * a) + 0.000907 * sin (2 * a)
                     - 0.002697 * cos (3 * a) + 0.00148 * sin (3 * a))
               <= 0.488929) by (apply Rabs_le; lra).
  split; [exact Hb|].
  apply cos_pos_neq_0. pose proof PI2_1.
  set (dec := 0.006918 - 0.399912 * cos a + 0.070257 * sin a
              - 0.006758 * cos (2 * a) + 0.000907 * sin (2 * a)
              - 0.002697 * cos (3 * a) + 0.00148 * sin (3 * a)) in *.
  pose proof (Rle_abs dec). pose proof (Rle_abs (- dec)) as Hn.
  rewrite Rabs_Ropp in Hn. lra.
Qed.

(** ** PyEphem dates to seconds and microseconds *)

Lemma py_round_nearest (x : R) (k : Z) :
  Rabs (x - IZR k) < 1 / 2 -> py_round x = k.
Proof.
  intros H. apply Rabs_def2 in H. destruct H as [Hu Hl].
  unfold py_round.
  destruct (Rle_dec (IZR k) x) as [Hge | Hlt].
  - rewrite <- (Int_part_spec x k) by lra.
    destruct (Rlt_dec (x - IZR k) (1 / 2)); [reflexivity | lra].
  - rewrite <- (Int_part_spec x (k - 1)) by (rewrite minus_IZR; lra).
    rewrite minus_IZR.
    destruct (Rlt_dec (x - (IZR k - 1)) (1 / 2)); [lra|].
    destruct (Rlt_dec (1 / 2) (x - (IZR k - 1))); [lia | lra].
Qed.

(** X12: a PyEphem date within a quarter of a microsecond of [n] microseconds
    after the Unix epoch (day 25567.5 of PyEphem's count) converts to the
    seconds and microseconds of [n]: the pair recombines to [n] and the
    microseconds lie in [0, 1000000). *)
Theorem ephem_seconds_round_trip (date : R) (n : Z) :
  Rabs (86400000000 * (date - 25567.5) - IZR n) < 1 / 4 ->
  exists seconds microseconds : Z,
    _ephem_convert_to_seconds_and_microseconds (of_R date)
    = Some (seconds, microseconds)
    /\ (0 <= microseconds < 1000000)%Z
    /\ (seconds * 1000000 + microseconds = n)%Z.
Proof.
  intros H.
  unfold _ephem_convert_to_seconds_and_microseconds. finite.
  unfold of_R. cbv beta iota zeta.
  rewrite (py_round_nearest _ (2209032000000000 + n)).
  - do 2 eexists. split; [reflexivity|].
    pose proof (Z.mod_pos_bound (2209032000000000 + n) 1000000 eq_refl).
    split; [lia|].
    pose proof (Z.div_mod (2209032000000000 + n) 1000000 ltac:(lia)). lia.
  - rewrite plus_IZR.
    replace (24 * 60 * 60 * 1000000 * date - (2209032000000000 + IZR n))
      with (86400000000 * (date - 25567.5) - IZR n) by lra.
    lra.
Qed.

(** 21 June 2023 at 18:00 UTC, day 45097.25. *)
Lemma ephem_seconds_round_trip_witness :
  exists seconds microseconds : Z,
    _ephem_convert_to_seconds_and_microseconds (of_R 45097.25)
    = Some (seconds, microseconds)
    /\ (0 <= microseconds < 1000000)%Z
    /\ (seconds * 1000000 + microseconds = 1687370400000000)%Z.
Proof.
  apply (ephem_seconds_round_trip 45097.25 1687370400000000).
  rewrite Rabs_pos_eq; lra.
Defined.

(** ** The Kepler loop: what it returns *)

(** [np.max] of a non-empty finite array is finite and dominates every
    element. *)
Lemma fold_maximum_upper (rs : list R) :
  forall x : R,
    exists c : R,
      fold_left np.maximum (map of_R rs) (of_R x) = of_R c
      /\ x <= c /\ Forall (fun r => r <= c) rs.
Proof.
  induction rs as [|r rs IH]; intros x.
  - exists x. cbn. repeat split; [lra | constructor].
  - cbn [map fold_left]. change (np.maximum (of_R x) (of_R r))
      with (of_R (Rmax x r)).
    destruct (IH (Rmax x r)) as [c [Hc [Hx Hall]]].
    exists c. split; [exact Hc|].
    pose proof (Rmax_l x r). pose proof (Rmax_r x r).
    split; [lra|]. constructor; [lra | exact Hall].
Qed.

Lemma max_upper (rs : list R) :
  rs <> [] ->
  exists c : R,
    np.max (map of_R rs) = Some (of_R c) /\ Forall (fun r => r <= c) rs.
Proof.
  intros Hne. destruct rs as [|x rs]; [contradiction|].
  destruct (fold_maximum_upper rs x) as [c [Hc [Hx Hall]]].
  exists c. cbn [map np.max]. rewrite Hc.
  split; [reflexivity|]. constructor; assumption.
Qed.

Lemma fgt_false (c t : R) : (of_R c >? of_R t)%fl = false -> c <= t.
Proof.
  rewrite fgt_finite. unfold Rltb. destruct (Rlt_dec t c); [discriminate|].
  intros _. lra.
Qed.

(** ** The Kepler loop: termination, and what holds at return *)













(** The loop of [kepler_while_converges], with what it returns: an update
    of an iterate that it changes by at most the tolerance. *)
Lemma kepler_while_solution (k : nat) :
  forall (fuel : nat) (rows : list kepler_row) (B : R) (n : nat),
    (k <= fuel)%nat ->
    rows <> [] ->
    Forall (fun r => Rabs (row_e r) <= 0.02
                     /\ Rabs (row_next r - row_y r) <= B) rows ->
    B * 0.02 ^ k <= 0.0001 ->
    exists (rows' : list kepler_row) (n' : nat),
      kepler_while fuel (map (fun r => of_R (row_m r)) rows)
                        (map (fun r => of_R (row_e r)) rows)
                        (map (fun r => of_R (row_next r)) rows)
                        (array (map (fun r => of_R (row_y r)) rows)) n
      = Returned (map (fun r => of_R (row_next r)) rows', n')
      /\ map row_m rows' = map row_m rows
      /\ map row_e rows' = map row_e rows
      /\ Forall (fun r => Rabs (row_next r - row_y r) <= 0.0001) rows'.
Proof.
  induction k as [|k IH]; intros fuel rows B n Hfuel Hne Hrows Htol;
    rewrite kepler_while_eq; cbn [broadcast_sub];
    rewrite zip_with_map, map_map;
    (destruct (max_upper (map (fun r => Rabs (row_next r - row_y r)) rows))
       as [c [Hmax Hc]];
     [ destruct rows; [contradiction | discriminate] | ]);
    rewrite map_map in Hmax;
    change (map (fun r => fabs (of_R (row_next r) - of_R (row_y r))%fl) rows)
      with (map (fun r => of_R (Rabs (row_next r - row_y r))) rows);
    rewrite Hmax; apply Forall_map in Hc.
  - assert (Hcb : c <= 0.0001).
    { destruct rows as [|r rows]; [contradiction|].
      inversion Hrows as [|? ? [_ Hr] _]; subst.
      (* the maximum is one of the changes, all of them at most B *)
      assert (Hall : Forall (fun r => Rabs (row_next r - row_y r) <= B)
                       (r :: rows)).
      { eapply Forall_impl; [|exact Hrows]. intros ? [_ ?]. assumption. }
      pose proof (fold_maximum_bounded B
                    (map (fun r => of_R (Rabs (row_next r - row_y r))) rows)
                    ltac:(apply Forall_map; inversion Hall; subst;
                          eapply Forall_impl; [|eassumption];
                          intros ? ?; assumption)
                    (of_R (Rabs (row_next r - row_y r))) Hr) as Hb.
      cbn [map np.max] in Hmax. injection Hmax as Hmax.
      rewrite Hmax in Hb. cbn in Hb. cbn in Htol. lra. }
    rewrite fgt_finite, (Rltb_false _ _ Hcb).
    exists rows, n. repeat split.
    eapply Forall_impl; [|exact Hc]. intros r Hr. cbv beta in Hr. lra.
  - destruct (of_R c >? 0.0001)%fl eqn:Htest.
    2: { apply fgt_false in Htest.
         exists rows, n. repeat split.
         eapply Forall_impl; [|exact Hc]. intros r Hr. cbv beta in Hr. lra. }
    destruct fuel as [|fuel]; [lia|].
    assert (HM : map (fun r => of_R (row_m r)) rows
                 = map (fun r => of_R (row_m r)) (map row_step rows))
      by (rewrite map_map; reflexivity).
    assert (HE : map (fun r => of_R (row_e r)) rows
                 = map (fun r => of_R (row_e r)) (map row_step rows))
      by (rewrite map_map; reflexivity).
    assert (HY : map (fun r => of_R (row_next r)) rows
                 = map (fun r => of_R (row_y r)) (map row_step rows))
      by (rewrite map_map; reflexivity).
    rewrite HM, HE, HY, kepler_update_rows.
    destruct (IH fuel (map row_step rows) (0.02 * B) (S n))
      as [rows' [n' [Hrun [Hm' [He' Hres]]]]].
    + lia.
    + destruct rows; [contradiction | discriminate].
    + apply Forall_map. eapply Forall_impl; [|exact Hrows].
      intros r [He Hr]. split; [exact He|].
      change (Rabs (kepler_next (row_m r) (row_e r) (row_next r)
                    - kepler_next (row_m r) (row_e r) (row_y r))
              <= 0.02 * B).
      pose proof (kepler_next_contracts (row_m r) (row_e r)
                    (row_next r) (row_y r)) as Hk.
      pose proof (Rabs_pos (row_e r)).
      pose proof (Rabs_pos (row_next r - row_y r)).
      nra.
    + cbn [pow] in Htol. lra.
    + exists rows', n'. split; [exact Hrun|].
      rewrite Hm', He', !map_map. repeat split. exact Hres.
Qed.

Lemma nth_error_rows {A : Type} (f : kepler_row -> A)
  (rows : list kepler_row) (i : nat) (v : A) :
  nth_error (map f rows) i = Some v ->
  exists r, nth_error rows i = Some r /\ f r = v.
Proof.
  revert i. induction rows as [|r rows IH]; intros [|i] H; try discriminate.
  - injection H as <-. exists r. split; reflexivity.
  - apply IH, H.
Qed.

(** The run of the loop on finite arrays with small eccentricities: it
    returns finite values, each the update of an iterate that it changes
    by at most the tolerance (the iterate is 0 when the loop body never
    runs). *)
Lemma kepler_finite_run (fuel : nat) (ms es : list R) :
  ms <> [] ->
  length es = length ms ->
  Forall (fun e => Rabs e < 0.02) es ->
  (4 <= fuel)%nat ->
  exists (rows : list kepler_row) (n : nat),
    ephemeris_EccenAnom fuel (map of_R ms) (map of_R es)
    = Returned (map (fun r => of_R (row_next r)) rows, n)
    /\ map row_m rows = ms
    /\ map row_e rows = es
    /\ Forall (fun r => Rabs (row_next r - row_y r) <= 0.0001) rows.
Proof.
  intros Hne Hlen Hes Hfuel.
  destruct (rows_of_arrays ms es Hlen) as [rows [Hm [He Hy]]].
  assert (Hrne : rows <> [])
    by (intros ->; apply Hne; rewrite <- Hm; reflexivity).
  assert (Hyr : Forall (fun r => row_y r = row_m r) rows).
  { clear - Hm Hy. rewrite <- Hm in Hy. clear Hm.
    induction rows as [|r rows IH]; constructor.
    - injection Hy. auto.
    - apply IH. injection Hy. auto. }
  assert (Hsmall : Forall (fun r => Rabs (row_e r) < 0.02) rows).
  { rewrite <- He in Hes. apply Forall_map in Hes. exact Hes. }
  assert (HM : map of_R ms = map (fun r => of_R (row_m r)) rows)
    by (rewrite <- Hm, map_map; reflexivity).
  assert (HE : map of_R es = map (fun r => of_R (row_e r)) rows)
    by (rewrite <- He, map_map; reflexivity).
  assert (HY : map of_R ms = map (fun r => of_R (row_y r)) rows)
    by (rewrite <- Hy, map_map; reflexivity).
  unfold ephemeris_EccenAnom. rewrite kepler_while_eq. cbn [broadcast_sub].
  destruct (max_upper (map (fun m => Rabs (m - 0)) ms)) as [c [Hmax Hc]].
  { destruct ms; [contradiction | discriminate]. }
  rewrite map_map in Hmax |- *. rewrite map_map.
  change (map (fun x => fabs (of_R x - 0)%fl) ms)
    with (map (fun x => of_R (Rabs (x - 0))) ms).
  rewrite Hmax. apply Forall_map in Hc.
  destruct (of_R c >? 0.0001)%fl eqn:Htest.
  - destruct fuel as [|fuel]; [lia|].
    destruct (kepler_while_solution 3 fuel rows (0.02 * (180 / PI)) 1)
      as [rows' [n [Hrun [Hm' [He' Hres]]]]].
    + lia.
    + exact Hrne.
    + apply Forall_forall. intros r Hin.
      rewrite Forall_forall in Hsmall, Hyr.
      specialize (Hsmall r Hin). specialize (Hyr r Hin).
      split; [lra|]. unfold row_next. rewrite Hyr.
      pose proof (kepler_next_first (row_m r) (row_e r)) as H1.
      pose proof PI_RGT_0 as Hpi.
      assert (0 < 180 / PI) by (apply Rdiv_lt_0_compat; lra).
      nra.
    + pose proof PI2_1 as Hpi.
      assert (H90 : 180 / PI <= 90).
      { apply (Rmult_le_reg_r PI); [lra|]. unfold Rdiv.
        rewrite Rmult_assoc, Rinv_l by lra. lra. }
      cbn [pow]. lra.
    + rewrite <- kepler_update_rows, <- HM, <- HE, <- HY in Hrun.
      exists rows', n. split; [exact Hrun|].
      rewrite Hm', He', Hm, He. repeat split. exact Hres.
  - apply fgt_false in Htest.
    exists (map (fun r => {| row_m := row_m r; row_e := row_e r;
                             row_y := 0 |}) rows), 0%nat.
    rewrite !map_map. cbn [row_m row_e row_y].
    split; [|split; [exact Hm | split; [exact He|]]].
    + f_equal. f_equal. rewrite HM. apply map_ext. intros r.
      unfold row_next, kepler_next. cbn [row_m row_e row_y].
      rewrite Rmult_0_l, sin_0. f_equal. ring.
    + apply Forall_map. apply Forall_forall. intros r Hin.
      unfold row_next, kepler_next. cbn [row_m row_e row_y].
      rewrite Rmult_0_l, sin_0.
      rewrite Forall_forall in Hc.
      assert (Hinm : In (row_m r) ms)
        by (rewrite <- Hm; apply in_map, Hin).
      specialize (Hc _ Hinm). cbv beta in Hc.
      replace (row_m r + row_e r * (180 / PI) * 0 - 0) with (row_m r - 0)
        by ring.
      lra.
Qed.

(** X13: on finite arrays with eccentricities below 0.02 in absolute
    value, what the loop returns solves Kepler's equation
    E = M + e sin E elementwise to within |e| * 0.0001 degrees. *)
Theorem kepler_residual (fuel : nat) (ms es : list R) :
  ms <> [] ->
  length es = length ms ->
  Forall (fun e => Rabs e < 0.02) es ->
  (4 <= fuel)%nat ->
  exists (xs : list R) (n : nat),
    ephemeris_EccenAnom fuel (map of_R ms) (map of_R es)
    = Returned (map of_R xs, n)
    /\ length xs = length ms
    /\ forall (i : nat) (m e x : R),
         nth_error ms i = Some m ->
         nth_error es i = Some e ->
         nth_error xs i = Some x ->
         Rabs (x - (m + e * (180 / PI) * sin (x * (PI / 180))))
         <= Rabs e * 0.0001.
Proof.
  intros Hne Hlen Hes Hfuel.
  destruct (kepler_finite_run fuel ms es Hne Hlen Hes Hfuel)
    as [rows [n [Hrun [Hm [He Hres]]]]].
  exists (map row_next rows), n. rewrite map_map.
  split; [exact Hrun|]. split.
  - rewrite length_map, <- (length_map row_m rows), Hm. reflexivity.
  - intros i m e x Him Hie Hix.
    destruct (nth_error_rows _ _ _ _ Hix) as [r [Hr Hx]].
    assert (Hrm : row_m r = m).
    { pose proof (map_nth_error row_m _ _ Hr) as H1.
      rewrite Hm, Him in H1. injection H1. auto. }
    assert (Hre : row_e r = e).
    { pose proof (map_nth_error row_e _ _ Hr) as H1.
      rewrite He, Hie in H1. injection H1. auto. }
    rewrite Forall_forall in Hres.
    specialize (Hres r (nth_error_In _ _ Hr)).
    subst x m e.
    replace (row_next r
             - (row_m r + row_e r * (180 / PI)
                          * sin (row_next r * (PI / 180))))
      with (- (kepler_next (row_m r) (row_e r) (row_next r)
               - kepler_next (row_m r) (row_e r) (row_y r)))
      by (unfold row_next, kepler_next; ring).
    rewrite Rabs_Ropp.
    pose proof (kepler_next_contracts (row_m r) (row_e r)
                  (row_next r) (row_y r)) as Hk.
    pose proof (Rabs_pos (row_e r)). nra.
Qed.

(** Two mean anomalies with eccentricities near the Earth's. *)
Lemma kepler_residual_witness :
  exists (xs : list R) (n : nat),
    ephemeris_EccenAnom 4 (map of_R [100; 359]) (map of_R [0.0167; 0.0168])
    = Returned (map of_R xs, n)
    /\ length xs = length [100; 359]
    /\ forall (i : nat) (m e x : R),
         nth_error [100; 359] i = Some m ->
         nth_error [0.0167; 0.0168] i = Some e ->
         nth_error xs i = Some x ->
         Rabs (x - (m + e * (180 / PI) * sin (x * (PI / 180))))
         <= Rabs e * 0.0001.
Proof.
  apply (kepler_residual 4 [100; 359] [0.0167; 0.0168]).
  - discriminate.
  - reflexivity.
  - repeat constructor; rewrite Rabs_pos_eq; lra.
  - lia.
Defined.

(** X14: an empty array makes [np.max] raise; a NaN mean anomaly anywhere
    in the array makes the loop test false at once, and every element
    comes back as its mean anomaly, not iterated. *)
Theorem kepler_degenerate_arrays (fuel : nat) (MeanAnom Eccen : ndarray) :
  (MeanAnom = [] -> ephemeris_EccenAnom fuel MeanAnom Eccen = Raised)
  /\ (In nan MeanAnom ->
      ephemeris_EccenAnom fuel MeanAnom Eccen = Returned (MeanAnom, 0%nat)).
Proof.
  split.
  - intros ->. destruct fuel; reflexivity.
  - intros Hnan. unfold ephemeris_EccenAnom. rewrite kepler_while_eq.
    cbn [broadcast_sub]. rewrite max_has_nan; [reflexivity|].
    apply in_map_iff. exists nan. split; [reflexivity|].
    apply in_map_iff. exists nan. split; [reflexivity | exact Hnan].
Qed.

(** A NaN between two finite mean anomalies. *)
Lemma kepler_degenerate_arrays_witness :
  ephemeris_EccenAnom 10 [of_R 100; nan; of_R 359]
                      [of_R 0.0167; of_R 0.0167; of_R 0.0167]
  = Returned ([of_R 100; nan; of_R 359], 0%nat).
Proof.
  apply (kepler_degenerate_arrays 10 [of_R 100; nan; of_R 359]
           [of_R 0.0167; of_R 0.0167; of_R 0.0167]).
  right. left. reflexivity.
Defined.

(** ** The iterative ephemeris: ranges and termination *)

Lemma Int_part_bounds (r : R) : IZR (Int_part r) <= r < IZR (Int_part r) + 1.
Proof.
  destruct (base_Int_part r) as [H1 H2]. lra.
Qed.

Lemma fmod_finite (x y : R) :
  y <> 0 ->
  fmod (of_R x) (of_R y) = of_R (x - IZR (Int_part (x / y)) * y).
Proof.
  intros H. unfold fmod, ffloor. rewrite fdiv_finite by exact H.
  reflexivity.
Qed.

(** A finite angle reduced modulo 360 lies in [0, 360). *)
Lemma fmod_360 (x : R) :
  exists r : R, fmod (of_R x) 360 = of_R r /\ 0 <= r < 360.
Proof.
  rewrite fmod_finite by lra. eexists. split; [reflexivity|].
  pose proof (Int_part_bounds (x / 360)) as H.
  assert (E : x = x / 360 * 360) by field.
  set (k := IZR (Int_part (x / 360))) in *. clearbody k.
  set (q := x / 360) in *. clearbody q. lra.
Qed.

Lemma fmod_360_within (x : float) : within 0 360 (fmod x 360).
Proof.
  destruct x as [a|]; [|exact I].
  destruct (fmod_360 a) as [r [E H]].
  change (Some a) with (of_R a). rewrite E. cbn. lra.
Qed.

(** Reducing modulo 360 forgets a full turn. *)
Lemma fmod_360_turn (x : R) :
  fmod (of_R (x + 360)) 360 = fmod (of_R x) 360.
Proof.
  rewrite !fmod_finite by lra. f_equal.
  assert (E : Int_part ((x + 360) / 360) = (Int_part (x / 360) + 1)%Z).
  { pose proof (Int_part_bounds (x / 360)) as H.
    pose proof (Int_part_bounds ((x + 360) / 360)) as H'.
    replace ((x + 360) / 360) with (x / 360 + 1) in * by field.
    set (a := Int_part (x / 360)) in *.
    set (b := Int_part (x / 360 + 1)) in *. clearbody a b.
    assert (IZR b < IZR (a + 2)) by (rewrite plus_IZR; lra).
    assert (IZR a < IZR b) by lra.
    apply lt_IZR in H0, H1. lia. }
  rewrite E, plus_IZR. ring.
Qed.

Lemma Ratan2_range (y x : R) : - PI < Ratan2 y x <= PI.
Proof.
  unfold Ratan2. pose proof PI_RGT_0 as Hpi.
  pose proof (atan_bound (y / x)) as Hb.
  destruct (Rlt_dec 0 x) as [Hx|Hx]; [lra|].
  destruct (Rlt_dec x 0) as [Hx'|Hx'].
  - destruct (Rle_dec 0 y) as [Hy|Hy].
    + assert (Hq : y / x <= 0).
      { unfold Rdiv. pose proof (Rinv_lt_0_compat x Hx'). nra. }
      assert (atan (y / x) <= 0).
      { destruct Hq as [Hq|Hq].
        - left. rewrite <- atan_0. apply atan_increasing, Hq.
        - rewrite Hq, atan_0. lra. }
      lra.
    + assert (Hq : 0 < y / x).
      { unfold Rdiv. pose proof (Rinv_lt_0_compat x Hx'). nra. }
      assert (0 < atan (y / x))
        by (rewrite <- atan_0; apply atan_increasing, Hq).
      lra.
  - destruct (Rlt_dec 0 y); [lra|].
    destruct (Rlt_dec y 0); lra.
Qed.

Lemma degrees_half_turn (a : R) :
  - PI <= a <= PI -> -180 <= a * (180 / PI) <= 180.
Proof.
  intros H. pose proof PI_RGT_0 as Hpi.
  assert (E : forall k, k * PI * (180 / PI) = k * 180)
    by (intros k; field; lra).
  assert (Hp : 0 < 180 / PI) by (apply Rdiv_lt_0_compat; lra).
  pose proof (E 1) as E1. pose proof (E (-1)) as E2.
  nra.
Qed.

Lemma degrees_arctan2_within (y x : float) :
  within (-180) 180 (np.degrees (arctan2 y x)).
Proof.
  destruct y as [y|], x as [x|]; try exact I.
  change (arctan2 (Some y) (Some x)) with (of_R (Ratan2 y x)).
  rewrite degrees_finite. cbn.
  apply degrees_half_turn. pose proof (Ratan2_range y x). lra.
Qed.

Lemma degrees_arcsin_within (x : float) :
  within (-90) 90 (np.degrees (arcsin x)).
Proof.
  destruct x as [x|]; [|exact I]. unfold arcsin.
  destruct (Rleb (-1) x && Rleb x 1); [|exact I].
  change (Some (asin x)) with (of_R (asin x)).
  rewrite degrees_finite. cbn.
  pose proof (asin_bound x) as H.
  pose proof (degrees_half_turn (2 * asin x)) as H2.
  lra.
Qed.

(** [zenith = 90 - elevation] *)
Lemma zenith_within (x : float) :
  within (-90) 90 x -> within 0 180 (90 - x)%fl.
Proof.
  destruct x as [x|]; [|intros _; exact I]. cbn. lra.
Qed.

(** [SunAz[SunAz < 0] += 360] *)
Lemma azimuth_within (x : float) :
  within (-180) 180 x ->
  within 0 360 (if (0 >? x)%fl then (x + 360)%fl else x).
Proof.
  destruct x as [x|]; [|intros _; exact I].
  change (Some x) with (of_R x). rewrite fgt_finite. unfold Rltb.
  destruct (Rlt_dec x 0); cbn; lra.
Qed.

(** [HrAngle - 360 * (abs(HrAngle) > 180)] and [SolarTime]. *)
Lemma solar_time_within (a b : float) :
  within 0 360 a -> within (-180) 180 b ->
  let HrAngle := (a - b)%fl in
  within 0 24
    ((180 + (HrAngle - (if (fabs HrAngle >? 180)%fl then 360 else 0))) / 15)%fl.
Proof.
  destruct a as [a|], b as [b|]; try (intros; exact I).
  intros Ha Hb. cbn [within] in Ha, Hb. cbv zeta.
  change (Some a) with (of_R a). change (Some b) with (of_R b).
  rewrite fsub_finite.
  change (fabs (of_R (a - b))) with (of_R (Rabs (a - b))).
  rewrite fgt_finite. unfold Rltb.
  destruct (Rlt_dec 180 (Rabs (a - b))) as [H|H]; finite; cbn.
  - unfold Rabs in H. destruct (Rcase_abs (a - b)); lra.
  - unfold Rabs in H. destruct (Rcase_abs (a - b)); lra.
Qed.

(** The ranges of one row, whatever the inputs: a value that is not NaN
    is an elevation in [-90, 90], a zenith in [0, 180], an azimuth in
    [0, 360] and a solar time in [0, 24]. *)
Lemma ephemeris_row_ranges (t : UtcFields)
  (latitude longitude pressure temperature EccenAnom : float) :
  let r :=
    ephemeris_row t latitude longitude pressure temperature EccenAnom in
  within (-90) 90 (elevation r) /\ within 0 180 (zenith r)
  /\ within 0 360 (azimuth r) /\ within 0 24 (solar_time r).
Proof.
  cbv zeta. unfold ephemeris_row.
  cbn [elevation zenith azimuth solar_time].
  split; [apply degrees_arcsin_within|].
  split; [apply zenith_within, degrees_arcsin_within|].
  split; [apply azimuth_within, degrees_arctan2_within|].
  apply solar_time_within.
  - unfold LocAST. apply fmod_360_within.
  - apply degrees_arctan2_within.
Qed.

Lemma rows_of_length (time_utc : list UtcFields) (EccenAnom : ndarray)
  (row : UtcFields -> float -> SolarPosition) :
  length EccenAnom = length time_utc ->
  length (rows_of time_utc EccenAnom row) = length time_utc.
Proof.
  revert EccenAnom.
  induction time_utc as [|t ts IH]; intros [|E Es] H; cbn in *;
    try reflexivity; try discriminate.
  f_equal. apply IH. lia.
Qed.

Lemma rows_of_Forall (P : SolarPosition -> Prop)
  (row : UtcFields -> float -> SolarPosition) :
  (forall t E, P (row t E)) ->
  forall time_utc EccenAnom, Forall P (rows_of time_utc EccenAnom row).
Proof.
  intros H. induction time_utc as [|t ts IH]; intros [|E Es]; cbn;
    constructor; auto.
Qed.

(** ** The quantities before the loop *)

Lemma DecHours_finite (t : UtcFields) :
  calendar_fields t ->
  exists h : R, DecHours t = of_R h /\ 0 <= h < 24.
Proof.
  intros (_ & _ & Hh & Hm & Hs & Hu). unfold DecHours, of_int64.
  repeat match goal with
         | |- context [Some (IZR ?z)] => change (Some (IZR z)) with (of_R (IZR z))
         end.
  finite. eexists. split; [reflexivity|].
  destruct Hh as [Hh1 Hh2], Hm as [Hm1 Hm2], Hs as [Hs1 Hs2],
    Hu as [Hu1 Hu2].
  apply IZR_le in Hh1, Hh2, Hm1, Hm2, Hs1, Hs2, Hu1, Hu2.
  lra.
Qed.

Lemma Ezero_finite (t : UtcFields) :
  calendar_fields t ->
  exists d : R, Ezero t = of_R d /\ -81452 <= d <= 132588.
Proof.
  intros (Hy & Hd & _). unfold Ezero, of_int64, ffloor. cbv zeta.
  repeat match goal with
         | |- context [Some (IZR ?z)] => change (Some (IZR z)) with (of_R (IZR z))
         end.
  finite. change (lift1 ?f (of_R ?x)) with (of_R (f x)). finite.
  eexists. split; [reflexivity|].
  pose proof (Int_part_bounds (IZR (year t - 1900 - 1) / 4)) as Hf.
  destruct Hy as [Hy1 Hy2], Hd as [Hd1 Hd2].
  rewrite mult_IZR, !minus_IZR in *.
  apply IZR_le in Hy1, Hy2, Hd1, Hd2.
  set (k := IZR (Int_part _)) in *. clearbody k. lra.
Qed.

Lemma EpochDate_finite (t : UtcFields) :
  calendar_fields t ->
  exists d : R, EpochDate t = of_R d /\ -81452 <= d <= 132589.
Proof.
  intros H. unfold EpochDate.
  destruct (Ezero_finite t H) as [d [-> Hd]].
  destruct (DecHours_finite t H) as [h [-> Hh]].
  finite. eexists. split; [reflexivity|]. lra.
Qed.

Lemma T1_finite (t : UtcFields) :
  calendar_fields t ->
  exists (d c : R), EpochDate t = of_R d /\ T1 t = of_R c
                    /\ c = d / 36525 /\ -4 <= c <= 4.
Proof.
  intros H. unfold T1.
  destruct (EpochDate_finite t H) as [d [-> Hd]].
  finite. exists d, (d / 36525). repeat split; lra.
Qed.

Lemma MeanAnom_finite (t : UtcFields) :
  calendar_fields t ->
  exists m : R, MeanAnom t = of_R m /\ 0 <= m < 360.
Proof.
  intros H. unfold MeanAnom. cbv zeta.
  destruct (T1_finite t H) as (d & c & -> & -> & _ & _).
  rewrite !fpow_finite. finite. apply fmod_360.
Qed.

Lemma Eccen_small (t : UtcFields) :
  calendar_fields t ->
  exists e : R, Eccen t = of_R e /\ 0 < e < 0.02.
Proof.
  intros H. unfold Eccen.
  destruct (T1_finite t H) as (d & c & _ & -> & _ & Hc).
  apply Eccen_of_small, Hc.
Qed.

Lemma Forall_finite {A : Type} (f : A -> float) (P : R -> Prop)
  (l : list A) :
  Forall (fun a => exists r, f a = of_R r /\ P r) l ->
  exists rs : list R, map f l = map of_R rs /\ Forall P rs
                      /\ length rs = length l.
Proof.
  induction 1 as [|a l (r & E & Hr) _ (rs & IH1 & IH2 & IH3)].
  - exists []. repeat split. constructor.
  - exists (r :: rs). cbn. rewrite E, IH1, IH3. repeat split.
    constructor; assumption.
Qed.

(** X15: [ephemeris] returns for every non-empty index of timestamps that
    pandas can hold, whatever the site and the weather: the loop ends
    within four passes, the frame has one row per timestamp, and in each
    row a value that is not NaN is an elevation in [-90, 90], a zenith in
    [0, 180], an azimuth in [0, 360] and a solar time in [0, 24]. *)
Theorem ephemeris_returns (fuel : nat) (time_utc : list UtcFields)
  (latitude longitude pressure temperature : float) :
  time_utc <> [] ->
  Forall calendar_fields time_utc ->
  (4 <= fuel)%nat ->
  exists rows : list SolarPosition,
    ephemeris fuel time_utc latitude longitude pressure temperature
    = Returned rows
    /\ length rows = length time_utc
    /\ Forall (fun r =>
                 within (-90) 90 (elevation r) /\ within 0 180 (zenith r)
                 /\ within 0 360 (azimuth r) /\ within 0 24 (solar_time r))
              rows.
Proof.
  intros Hne Hcal Hfuel.
  destruct (Forall_finite MeanAnom (fun m => 0 <= m < 360) time_utc)
    as (ms & HM & _ & Hlm).
  { eapply Forall_impl; [|exact Hcal]. apply MeanAnom_finite. }
  destruct (Forall_finite Eccen (fun e => 0 < e < 0.02) time_utc)
    as (es & HE & Hes & Hle).
  { eapply Forall_impl; [|exact Hcal]. apply Eccen_small. }
  destruct (kepler_finite_run fuel ms es) as (rows & n & Hrun & Hm & _).
  - intros ->. destruct time_utc; [contradiction | discriminate].
  - congruence.
  - eapply Forall_impl; [|exact Hes]. cbv beta. intros e He.
    rewrite Rabs_pos_eq; lra.
  - exact Hfuel.
  - unfold ephemeris. rewrite HM, HE, Hrun. eexists.
    split; [reflexivity|]. split.
    + apply rows_of_length.
      rewrite length_map, <- (length_map row_m rows), Hm. exact Hlm.
    + apply rows_of_Forall. intros t E.
      apply (ephemeris_row_ranges t latitude longitude pressure
               temperature E).
Qed.

(** One entry, 21 June 2023 at 18:00 UTC. *)
Lemma ephemeris_returns_witness :
  exists rows : list SolarPosition,
    ephemeris 4 [{| year := 2023; dayofyear := 172; hour := 18;
                    minute := 0; second := 0; microsecond := 0 |}]
      39.742 (-105.179) 101325 12
    = Returned rows
    /\ length rows = 1%nat
    /\ Forall (fun r =>
                 within (-90) 90 (elevation r) /\ within 0 180 (zenith r)
                 /\ within 0 360 (azimuth r) /\ within 0 24 (solar_time r))
              rows.
Proof.
  apply (ephemeris_returns 4
           [{| year := 2023; dayofyear := 172; hour := 18;
               minute := 0; second := 0; microsecond := 0 |}]).
  - discriminate.
  - constructor; [|constructor]. unfold calendar_fields. cbn. lia.
  - lia.
Defined.

(** X16: a site a full turn further east sees the same sun: the longitude
    enters [ephemeris] only through the sidereal time reduced modulo 360. *)
Theorem ephemeris_longitude_period (fuel : nat) (time_utc : list UtcFields)
  (latitude pressure temperature : float) (longitude : R) :
  ephemeris fuel time_utc latitude (of_R (longitude + 360)) pressure
    temperature
  = ephemeris fuel time_utc latitude (of_R longitude) pressure temperature.
Proof.
  assert (HL : forall t, LocAST t (of_R (longitude + 360))
                         = LocAST t (of_R longitude)).
  { intros t. unfold LocAST. cbv zeta.
    match goal with
    | |- fmod (fsub (fadd _ ?G) _) _ = _ => destruct G as [g|]
    end; [|reflexivity].
    change (Some g) with (of_R g). finite.
    replace (360 + g - -1 * (longitude + 360))
      with (360 + g - -1 * longitude + 360) by ring.
    apply fmod_360_turn. }
  assert (HR : forall t E,
             ephemeris_row t latitude (of_R (longitude + 360)) pressure
               temperature E
             = ephemeris_row t latitude (of_R longitude) pressure
                 temperature E).
  { intros t E. unfold ephemeris_row. cbv zeta. rewrite HL. reflexivity. }
  unfold ephemeris.
  destruct (ephemeris_EccenAnom fuel (map MeanAnom time_utc)
              (map Eccen time_utc)) as [[EccenAnom n]| |]; try reflexivity.
  f_equal. revert EccenAnom.
  induction time_utc as [|t ts IH]; intros [|E Es]; cbn; try reflexivity.
  rewrite HR, IH. reflexivity.
Qed.

(** ** Refraction never lowers the sun *)

Lemma refraction_quartic_pos (x : R) :
  -0.575 < x <= 5 ->
  0 < x * (-518.2 + x * (103.4 + x * (-12.79 + x * 0.711))) + 1735.
Proof.
  intros H. nra.
Qed.

Lemma refraction_rational_pos (t : R) :
  0 < t -> 0 < 58.1 / t - 0.07 / t ^ 3 + 8.6e-05 / t ^ 5.
Proof.
  intros Ht.
  assert (H5 : 0 < t ^ 5) by (apply pow_lt, Ht).
  replace (58.1 / t - 0.07 / t ^ 3 + 8.6e-05 / t ^ 5)
    with ((58.1 * (t ^ 2) ^ 2 - 0.07 * t ^ 2 + 8.6e-05) / t ^ 5)
    by (field; lra).
  apply Rdiv_lt_0_compat; [|exact H5].
  set (u := t ^ 2). nra.
Qed.

Lemma ephemeris_Refract_sign (Elevation : R) :
  exists r : R,
    ephemeris_Refract Elevation = of_R r
    /\ 0 <= r /\ (-1 < Elevation <= 85 -> 0 < r).
Proof.
  pose proof PI_RGT_0 as Hpi.
  destruct (Rle_dec Elevation (-1)) as [H1 | H1].
  { exists 0. split; [apply ephemeris_Refract_outside; left; exact H1|].
    split; lra. }
  destruct (Rle_dec Elevation (-0.575)) as [H2 | H2].
  { destruct (ephemeris_Refract_horizon Elevation) as [Hne E]; [lra|].
    eexists. split; [exact E|].
    assert (Ht : tan (Elevation * (PI / 180)) < 0)
      by (apply tan_lt_0; nra).
    assert (0 < -20.774 / tan (Elevation * (PI / 180))).
    { unfold Rdiv.
      pose proof (Rinv_lt_0_compat _ Ht). nra. }
    split; [lra | intros _; assumption]. }
  destruct (Rle_dec Elevation 5) as [H3 | H3].
  { eexists. split; [apply ephemeris_Refract_low; lra|].
    pose proof (refraction_quartic_pos Elevation). split; lra. }
  destruct (Rle_dec Elevation 85) as [H4 | H4].
  { destruct (ephemeris_Refract_high Elevation) as [Hne E]; [lra|].
    eexists. split; [exact E|].
    assert (Ht : 0 < tan (Elevation * (PI / 180)))
      by (apply tan_gt_0; nra).
    pose proof (refraction_rational_pos _ Ht). split; lra. }
  exists 0. split; [apply ephemeris_Refract_outside; right; lra|].
  split; lra.
Qed.

(** X17: above absolute zero and at a pressure that is not negative, the
    apparent elevation is finite and never below the geometric elevation;
    it is above it exactly where the correction applies, for elevations
    in (-1, 85] at a positive pressure, and equal to it outside. *)
Theorem refraction_raises_sun (SunEl temperature pressure : R) :
  -273 < temperature ->
  0 <= pressure ->
  exists apparent : R,
    ephemeris_ApparentSunEl SunEl temperature pressure = of_R apparent
    /\ SunEl <= apparent
    /\ (-1 < SunEl <= 85 -> 0 < pressure -> SunEl < apparent)
    /\ (SunEl <= -1 \/ 85 < SunEl -> apparent = SunEl).
Proof.
  intros HT HP. unfold ephemeris_ApparentSunEl.
  destruct (ephemeris_Refract_sign SunEl) as (r & E & Hr & Hpos).
  pose proof (ephemeris_Refract_outside SunEl) as Hout.
  rewrite E in *. finite. eexists. split; [reflexivity|].
  assert (Hs : 0 < 283 / (273 + temperature))
    by (apply Rdiv_lt_0_compat; lra).
  set (s := 283 / (273 + temperature)) in *. clearbody s.
  assert (Hk : 0 <= s * (pressure / 101325) / 3600) by nra.
  split; [nra|]. split.
  - intros Hin HP'. specialize (Hpos Hin).
    assert (0 < s * (pressure / 101325) / 3600) by nra. nra.
  - intros Ho. specialize (Hout Ho). apply of_R_inj in Hout.
    rewrite Hout. ring.
Qed.

(** At 0.5 degrees, 12 C and one atmosphere. *)
Lemma refraction_raises_sun_witness :
  exists apparent : R,
    ephemeris_ApparentSunEl 0.5 12 101325 = of_R apparent
    /\ 0.5 <= apparent
    /\ (-1 < 0.5 <= 85 -> 0 < 101325 -> 0.5 < apparent)
    /\ (0.5 <= -1 \/ 85 < 0.5 -> apparent = 0.5).
Proof.
  apply (refraction_raises_sun 0.5 12 101325); lra.
Defined.
